(** * ralphex orchestration core: runner, prompt builders, line reader, progress log

    A shallow embedding of the Go sources
      - [pkg/runner] signal helpers ([IsTerminalSignal], [IsReviewDone], [IsCodexDone]),
      - [pkg/runner/prompts.go] (the five prompt builders),
      - [pkg/runner] runner ([Run], [runFull], [runReviewOnly], [runCodexOnly],
        [runTaskPhase], [runClaudeReview], [runCodexPhase]),
      - [readLines] of the unbounded-line-reader plan,
      - the [NewLogger] / [isProgressCompleted] decision logic of the
        progress-fresh-start plan.

    Conventions.  A Go [string] is a sequence of bytes and is modelled by
    [String.string] (a sequence of 8-bit [ascii]); Go's [len] is
    [String.length].  A Go [error] is modelled by its message; [nil] is [None].
    [fmt.Errorf("p: %w", e)] is the message ["p: " ++ e].  A Go [int] that
    only counts loop iterations is a [Z]. *)

From Stdlib Require Import String Ascii List ZArith Lia Bool Arith.
From Stdlib Require Import Numbers.DecimalString.
Import ListNotations.

Open Scope string_scope.

(* ------------------------------------------------------------------ *)
(** ** Go string primitives *)

Module GoString.

(** [s[n:]] for [n <= len(s)]. *)
Fixpoint drop (n : nat) (s : string) : string :=
  match n, s with
  | O, _ => s
  | S n', String _ s' => drop n' s'
  | S _, EmptyString => EmptyString
  end.

(** [s[:n]] for [n <= len(s)]. *)
Fixpoint take (n : nat) (s : string) : string :=
  match n, s with
  | O, _ => EmptyString
  | S n', String c s' => String c (take n' s')
  | S _, EmptyString => EmptyString
  end.

(** [strings.HasPrefix(s, p)]. *)
Fixpoint HasPrefix (s p : string) {struct p} : bool :=
  match p, s with
  | EmptyString, _ => true
  | String a p', String b s' => Ascii.eqb a b && HasPrefix s' p'
  | String _ _, EmptyString => false
  end.

(** [strings.Contains(s, sub)]. *)
Fixpoint Contains (s sub : string) : bool :=
  HasPrefix s sub ||
  match s with
  | EmptyString => false
  | String _ s' => Contains s' sub
  end.

(** The relational reading of [Contains]: [sub] occurs somewhere in [s]. *)
Definition Occurs (sub s : string) : Prop :=
  exists pre post, s = pre ++ sub ++ post.

(** [strings.IndexByte(s, c) >= 0]. *)
Fixpoint HasByte (c : ascii) (s : string) : bool :=
  match s with
  | EmptyString => false
  | String b s' => Ascii.eqb c b || HasByte c s'
  end.

(** [strings.TrimRight(s, cutset)]: drop every trailing byte that belongs to
    [cutset]. *)
Fixpoint TrimRight (s cutset : string) : string :=
  match s with
  | EmptyString => EmptyString
  | String c s' =>
      match TrimRight s' cutset with
      | EmptyString => if HasByte c cutset then EmptyString else String c EmptyString
      | t => String c t
      end
  end.

(** The number of bytes of [s] equal to [c]. *)
Fixpoint countByte (c : ascii) (s : string) : nat :=
  match s with
  | EmptyString => 0
  | String b s' => (if Ascii.eqb c b then 1 else 0) + countByte c s'
  end.

(** [n] copies of the byte [c]. *)
Fixpoint replicate (n : nat) (c : ascii) : string :=
  match n with
  | O => EmptyString
  | S n' => String c (replicate n' c)
  end.

(** [%d] of [fmt]. *)
Definition fmt_d (z : Z) : string := NilZero.string_of_int (Z.to_int z).

End GoString.
Import GoString.

(* ------------------------------------------------------------------ *)
(** ** Signals *)

Definition SignalCompleted : string := "COMPLETED".
Definition SignalFailed : string := "FAILED".
Definition SignalReviewDone : string := "REVIEW_DONE".
Definition SignalCodexDone : string := "CODEX_DONE".

Definition IsTerminalSignal (signal : string) : bool :=
  (signal =? SignalCompleted) || (signal =? SignalFailed).

Definition IsReviewDone (signal : string) : bool :=
  signal =? SignalReviewDone.

Definition IsCodexDone (signal : string) : bool :=
  signal =? SignalCodexDone.

(* ------------------------------------------------------------------ *)
(** ** Prompt builders ([prompts.go]) *)

Definition nl : string := String (ascii_of_nat 10) EmptyString.
Definition cr : string := String (ascii_of_nat 13) EmptyString.

(** A [strings.Builder] is the concatenation of what was written to it. *)
Definition sb_String (writes : list string) : string :=
  fold_right append EmptyString writes.

Definition buildFirstReviewPrompt : string :=
  sb_String
    [ "You are reviewing code changes for quality and correctness." ++ nl ++ nl;
      "## Instructions" ++ nl ++ nl;
      "1. Run `git diff` to see all uncommitted changes" ++ nl;
      "2. Review each changed file for:" ++ nl;
      "   - Code correctness and logic errors" ++ nl;
      "   - Error handling completeness" ++ nl;
      "   - Test coverage for new code" ++ nl;
      "   - Code style and naming conventions" ++ nl;
      "   - Potential security issues" ++ nl;
      "3. If you find issues, fix them directly" ++ nl;
      "4. Run tests after making fixes" ++ nl;
      "5. When review is complete and all issues are fixed, output REVIEW_DONE" ++ nl;
      "6. If you encounter a blocking issue you cannot fix, output FAILED" ++ nl ++ nl;
      "Important: Only output REVIEW_DONE or FAILED as terminal signals." ++ nl ].

Definition secondReviewHead : string :=
  sb_String
    [ "You are reviewing code based on external analysis findings." ++ nl ++ nl;
      "## Codex Analysis Findings" ++ nl ++ nl ].

Definition secondReviewTail : string :=
  sb_String
    [ nl ++ nl ++ "## Instructions" ++ nl ++ nl;
      "1. Review each finding from the Codex analysis" ++ nl;
      "2. For valid issues, implement fixes directly" ++ nl;
      "3. For false positives or non-issues, skip them" ++ nl;
      "4. Run tests after making fixes" ++ nl;
      "5. When all valid findings are addressed, output REVIEW_DONE" ++ nl;
      "6. If you encounter a blocking issue, output FAILED" ++ nl ++ nl;
      "Important: Only output REVIEW_DONE or FAILED as terminal signals." ++ nl ].

Definition buildSecondReviewPrompt (codexFindings : string) : string :=
  secondReviewHead ++ codexFindings ++ secondReviewTail.

Definition buildCodexPrompt : string :=
  sb_String
    [ "Analyze the current git diff for code quality issues." ++ nl;
      nl;
      "Focus on:" ++ nl;
      "1. Logic errors and bugs" ++ nl;
      "2. Missing error handling" ++ nl;
      "3. Security vulnerabilities" ++ nl;
      "4. Performance issues" ++ nl;
      "5. Code that doesn't match the surrounding style" ++ nl;
      nl;
      "For each issue found, provide:" ++ nl;
      "- File and line number" ++ nl;
      "- Description of the issue" ++ nl;
      "- Suggested fix" ++ nl;
      nl;
      "If no significant issues are found, state that the code looks good." ++ nl;
      nl;
      "Output CODEX_DONE when analysis is complete." ].

Definition continueHead : string :=
  sb_String
    [ "Continue from where you left off." ++ nl ++ nl;
      "## Previous Output (last 500 chars)" ++ nl ++ nl ].

Definition continueTail : string :=
  sb_String
    [ nl ++ nl;
      "Continue executing tasks. Remember to output COMPLETED when done or FAILED if blocked." ++ nl ].

(** The [output] local of [buildContinuePrompt] after the [if]. *)
Definition continueWindow (previousOutput : string) : string :=
  if (500 <? String.length previousOutput)%nat
  then drop (String.length previousOutput - 500) previousOutput
  else previousOutput.

Definition buildContinuePrompt (previousOutput : string) : string :=
  continueHead ++ continueWindow previousOutput ++ continueTail.

(** [os.ReadFile] is the file system, a parameter of the run: the content of
    the file or the error message. *)
Definition FileSystem : Type := string -> string + string.

Definition taskPromptHead (iteration : Z) : string :=
  sb_String
    [ "You are executing a plan autonomously. ";
      "This is iteration " ++ fmt_d iteration ++ "." ++ nl ++ nl;
      "## Plan" ++ nl ++ nl ].

Definition taskPromptTail : string :=
  sb_String
    [ nl ++ nl ++ "## Instructions" ++ nl ++ nl;
      "1. Review the plan and identify the next incomplete task" ++ nl;
      "2. Execute the task, making necessary code changes" ++ nl;
      "3. Run tests to verify your changes work" ++ nl;
      "4. Update the plan file to mark completed tasks with [x]" ++ nl;
      "5. If all tasks are complete, output COMPLETED" ++ nl;
      "6. If you encounter a blocking issue, output FAILED with explanation" ++ nl;
      "7. Otherwise, continue to the next task" ++ nl ++ nl;
      "Important: Only output COMPLETED or FAILED as terminal signals. ";
      "Do not output these words in any other context." ++ nl ].

Definition buildTaskPrompt (ReadFile : FileSystem) (planFile : string) (iteration : Z)
  : string + string :=
  match ReadFile planFile with
  | inr err => inr ("read plan file: " ++ err)
  | inl planContent => inl (taskPromptHead iteration ++ planContent ++ taskPromptTail)
  end.

(* ------------------------------------------------------------------ *)
(** ** Runner data model *)

(** [executor.Result]. *)
Record Result : Type := mkResult
  { Output : string;
    Signal : string;
    Error : option string }.

(** [Config]; [Mode] is a Go string type with three named constants. *)
Record Config : Type := mkConfig
  { PlanFile : string;
    Mode : string;
    MaxIterations : Z;
    Debug : bool;
    NoColor : bool }.

Definition ModeFull : string := "full".
Definition ModeReview : string := "review".
Definition ModeCodexOnly : string := "codex-only".

(** [progress.Phase] as the runner sets it. *)
Inductive Phase : Type := PhaseUnset | PhaseTask | PhaseReview | PhaseCodex.

(** Which of the runner's two executors was invoked. *)
Inductive Agent : Type := Claude | Codex.

(** One [Executor.Run] invocation: the prompt sent and the result returned. *)
Record Call : Type := mkCall
  { agent : Agent;
    prompt : string;
    result : Result }.

Definition isClaude (c : Call) : Prop := agent c = Claude.
Definition isCodex (c : Call) : Prop := agent c = Codex.

(** An [Executor] is a state machine: [Run] maps its state and the prompt to
    a result and a new state. *)
Definition Executor (S : Type) : Type := S -> string -> Result * S.

(** A [context.Context] as the runner observes it: the runner only polls
    [ctx.Done()] at the top of a loop iteration; [ctx k] is [ctx.Err()] at the
    [k]-th poll of the run, [None] while the context is live. *)
Definition Context : Type := nat -> option string.

Definition ctxLive (ctx : Context) : Prop := forall k, ctx k = None.

Definition maxReviewIterations : Z := 10.

Section Runner.

Context {CS XS : Type}.
Variable claude : Executor CS.
Variable codex : Executor XS.
Variable ctx : Context.
Variable ReadFile : FileSystem.
Variable cfg : Config.

(** Everything a run reads and writes besides its configuration. *)
Record World : Type := mkWorld
  { claudeSt : CS;
    codexSt : XS;
    polls : nat;             (* polls of [ctx.Done()] so far *)
    calls : list Call;       (* executor invocations, oldest first *)
    phase : Phase;           (* [log.SetPhase] *)
    messages : list string   (* [log.Print], oldest first *) }.

(** A Go function returning [error] (or a value and an [error]) that may
    invoke executors and the logger. *)
Definition M (A : Type) : Type := World -> (A + string) * World.

Definition ret {A : Type} (a : A) : M A := fun w => (inl a, w).

Definition throw {A : Type} (e : string) : M A := fun w => (inr e, w).

Definition bind {A B : Type} (m : M A) (k : A -> M B) : M B :=
  fun w =>
    match m w with
    | (inl a, w') => k a w'
    | (inr e, w') => (inr e, w')
    end.

Local Notation "x <- m ;; k" := (bind m (fun x => k))
  (at level 100, m at next level, right associativity).
Local Notation "m ;;; k" := (bind m (fun _ => k))
  (at level 100, right associativity).

(** [if err := m; err != nil { return fmt.Errorf(prefix + "%w", err) }]. *)
Definition wrapErr {A : Type} (prefix : string) (m : M A) : M A :=
  fun w =>
    match m w with
    | (inl a, w') => (inl a, w')
    | (inr e, w') => (inr (prefix ++ e), w')
    end.

Definition liftErr {A : Type} (r : A + string) : M A :=
  match r with
  | inl a => ret a
  | inr e => throw e
  end.

(** [select { case <-ctx.Done(): ...; default: }]. *)
Definition ctxDone : M (option string) :=
  fun w =>
    (inl (ctx (polls w)),
     mkWorld (claudeSt w) (codexSt w) (S (polls w)) (calls w) (phase w) (messages w)).

Definition logSetPhase (p : Phase) : M unit :=
  fun w => (inl tt, mkWorld (claudeSt w) (codexSt w) (polls w) (calls w) p (messages w)).

Definition logPrint (msg : string) : M unit :=
  fun w =>
    (inl tt,
     mkWorld (claudeSt w) (codexSt w) (polls w) (calls w) (phase w)
             (messages w ++ [msg])%list).

(** [r.claude.Run(ctx, prompt)]. *)
Definition claudeRun (p : string) : M Result :=
  fun w =>
    let '(r, s) := claude (claudeSt w) p in
    (inl r,
     mkWorld s (codexSt w) (polls w) (calls w ++ [mkCall Claude p r])%list
             (phase w) (messages w)).

(** [r.codex.Run(ctx, prompt)]. *)
Definition codexRun (p : string) : M Result :=
  fun w =>
    let '(r, s) := codex (codexSt w) p in
    (inl r,
     mkWorld (claudeSt w) s (polls w) (calls w ++ [mkCall Codex p r])%list
             (phase w) (messages w)).

(** ** The phases *)

(** The loop [for i := 1; i <= r.cfg.MaxIterations; i++] of [runTaskPhase],
    entered with [n] iterations left ([n = MaxIterations - i + 1], so the
    guard [i <= MaxIterations] holds exactly when [n] is a successor); the
    statement after the loop is the [O] case.  The index stays between 1 and
    [MaxIterations + 1]. *)
Fixpoint taskLoop (n : nat) (i : Z) (lastOutput : string) : M unit :=
  match n with
  | O =>
      throw ("max iterations (" ++ fmt_d (MaxIterations cfg)
               ++ ") reached without completion")
  | S n' =>
      done <- ctxDone ;;
      match done with
      | Some e => throw ("task phase: " ++ e)
      | None =>
          logPrint ("task iteration " ++ fmt_d i ++ "/" ++ fmt_d (MaxIterations cfg)) ;;;
          p <- (if (i =? 1)%Z
                then liftErr (buildTaskPrompt ReadFile (PlanFile cfg) i)
                else ret (buildContinuePrompt lastOutput)) ;;
          result <- claudeRun p ;;
          match Error result with
          | Some e => throw ("claude execution: " ++ e)
          | None =>
              if IsTerminalSignal (Signal result) then
                if Signal result =? SignalFailed
                then throw "task execution failed (FAILED signal received)"
                else logPrint "task phase completed (COMPLETED signal received)" ;;;
                     ret tt
              else taskLoop n' (i + 1)%Z (Output result)
          end
      end
  end.

Definition runTaskPhase : M unit :=
  taskLoop (Z.to_nat (MaxIterations cfg)) 1%Z "".

(** The loop [for i := 1; i <= maxReviewIterations; i++] of
    [runClaudeReview], with [n] iterations left. *)
Fixpoint reviewLoop (n : nat) (i : Z) (p : string) : M unit :=
  match n with
  | O => throw ("max review iterations (" ++ fmt_d maxReviewIterations ++ ") reached")
  | S n' =>
      done <- ctxDone ;;
      match done with
      | Some e => throw ("review: " ++ e)
      | None =>
          logPrint ("review iteration " ++ fmt_d i ++ "/" ++ fmt_d maxReviewIterations) ;;;
          result <- claudeRun p ;;
          match Error result with
          | Some e => throw ("claude execution: " ++ e)
          | None =>
              if Signal result =? SignalFailed
              then throw "review failed (FAILED signal received)"
              else if IsReviewDone (Signal result)
              then logPrint "review completed (REVIEW_DONE signal received)" ;;; ret tt
              else reviewLoop n' (i + 1)%Z (buildContinuePrompt (Output result))
          end
      end
  end.

Definition runClaudeReview (p : string) : M unit :=
  reviewLoop (Z.to_nat maxReviewIterations) 1%Z p.

Definition runCodexPhase : M string :=
  result <- codexRun buildCodexPrompt ;;
  match Error result with
  | Some e => throw ("codex execution: " ++ e)
  | None =>
      if Output result =? ""
      then logPrint "codex found no issues" ;;; ret ""
      else logPrint "codex analysis complete, found issues to review" ;;;
           ret (Output result)
  end.

(** ** The pipelines *)

Definition runFull : M unit :=
  if PlanFile cfg =? "" then throw "plan file required for full mode"
  else
    logSetPhase PhaseTask ;;;
    logPrint "starting task execution phase" ;;;
    wrapErr "task phase: " runTaskPhase ;;;
    logSetPhase PhaseReview ;;;
    logPrint "starting first review phase" ;;;
    wrapErr "first review: " (runClaudeReview buildFirstReviewPrompt) ;;;
    logSetPhase PhaseCodex ;;;
    logPrint "starting codex analysis phase" ;;;
    findings <- wrapErr "codex phase: " runCodexPhase ;;
    (if negb (findings =? "") then
       logSetPhase PhaseReview ;;;
       logPrint "starting second review phase (addressing codex findings)" ;;;
       wrapErr "second review: " (runClaudeReview (buildSecondReviewPrompt findings))
     else ret tt) ;;;
    logPrint "all phases completed successfully" ;;;
    ret tt.

Definition runReviewOnly : M unit :=
  logSetPhase PhaseReview ;;;
  logPrint "starting review phase" ;;;
  wrapErr "first review: " (runClaudeReview buildFirstReviewPrompt) ;;;
  logSetPhase PhaseCodex ;;;
  logPrint "starting codex analysis phase" ;;;
  findings <- wrapErr "codex phase: " runCodexPhase ;;
  (if negb (findings =? "") then
     logSetPhase PhaseReview ;;;
     logPrint "starting second review phase (addressing codex findings)" ;;;
     wrapErr "second review: " (runClaudeReview (buildSecondReviewPrompt findings))
   else ret tt) ;;;
  logPrint "review phases completed successfully" ;;;
  ret tt.

Definition runCodexOnly : M unit :=
  logSetPhase PhaseCodex ;;;
  logPrint "starting codex analysis phase" ;;;
  findings <- wrapErr "codex phase: " runCodexPhase ;;
  (if negb (findings =? "") then
     logSetPhase PhaseReview ;;;
     logPrint "starting review phase (addressing codex findings)" ;;;
     wrapErr "review: " (runClaudeReview (buildSecondReviewPrompt findings))
   else ret tt) ;;;
  logPrint "codex phases completed successfully" ;;;
  ret tt.

Definition Run : M unit :=
  if Mode cfg =? ModeFull then runFull
  else if Mode cfg =? ModeReview then runReviewOnly
  else if Mode cfg =? ModeCodexOnly then runCodexOnly
  else throw ("unknown mode: " ++ Mode cfg).

End Runner.

Arguments World : clear implicits.
Arguments M : clear implicits.

(** The run starts with fresh executors, no poll, no call and an empty log. *)
Definition initWorld {CS XS : Type} (c : CS) (x : XS) : World CS XS :=
  mkWorld c x 0 [] PhaseUnset [].

(** The calls a computation added to the trace when it took [w] to [w']. *)
Definition newCalls {CS XS : Type} (w w' : World CS XS) : list Call :=
  skipn (List.length (calls w)) (calls w').

(** ** The test double of [runner_test.go] *)

(** [mockExecutor]: the state is [idx]; [calls] is recorded by the world. *)
Definition mockExecutor (results : list Result) : Executor nat :=
  fun idx _ =>
    match nth_error results idx with
    | None => (mkResult "" "" (Some "no more mock results"), idx)
    | Some r => (r, S idx)
    end.

Definition liveCtx : Context := fun _ => None.
Definition canceledCtx : Context := fun _ => Some "context canceled".

(** A file system holding one plan file. *)
Definition planFS (path content : string) : FileSystem :=
  fun p => if p =? path then inl content
           else inr ("open " ++ p ++ ": no such file or directory").

Definition ok (out sig : string) : Result := mkResult out sig None.

(** Ten results without a terminal signal, as in
    [TestRunner_ClaudeReview_MaxIterations]. *)
Definition stillReviewing : list Result :=
  repeat (ok "still reviewing..." "") 10.

(** An executor that answers as [e] does, with the signal replaced. *)
Definition withSignal {S : Type} (sig : string) (e : Executor S) : Executor S :=
  fun s p =>
    let '(r, s') := e s p in
    (mkResult (Output r) sig (Error r), s').

(** The fixtures of the tests: fresh executors, a plan file on disk, a full
    mode configuration, and the number of calls an executor received. *)
Definition testWorld : World nat nat := initWorld 0 0.
Definition testFS : FileSystem := planFS "plan.md" "# Plan".
Definition testFull (n : Z) : Config := mkConfig "plan.md" ModeFull n false false.

Definition callsOf (a : Agent) (w : World nat nat) : nat :=
  List.length (filter (fun c => match agent c, a with
                                | Claude, Claude | Codex, Codex => true
                                | _, _ => false
                                end) (calls w)).

(** [cfg] with another plan file. *)
Definition setPlanFile (planFile : string) (cfg : Config) : Config :=
  mkConfig planFile (Mode cfg) (MaxIterations cfg) (Debug cfg) (NoColor cfg).


(* ------------------------------------------------------------------ *)
(** ** What a run of each loop looks like

    The calls a loop makes and the way it ends, as a relation read off the
    loop bodies: one constructor per way out of an iteration.  The loops
    above are shown to be included in these relations, and the properties of
    the phases are then proved by induction on them. *)

Section Traces.

Variable ctx : Context.
Variable ReadFile : FileSystem.
Variable cfg : Config.

(** The prompt of task iteration [i], or the error that ends the phase. *)
Definition taskPrompt (i : Z) (lastOutput : string) : string + string :=
  if (i =? 1)%Z
  then buildTaskPrompt ReadFile (PlanFile cfg) i
  else inl (buildContinuePrompt lastOutput).

Definition errMaxIterations : string :=
  "max iterations (" ++ fmt_d (MaxIterations cfg) ++ ") reached without completion".

Definition errMaxReviewIterations : string :=
  "max review iterations (" ++ fmt_d maxReviewIterations ++ ") reached".

Definition errTaskFailed : string := "task execution failed (FAILED signal received)".
Definition errReviewFailed : string := "review failed (FAILED signal received)".

(** [TaskRun n i lastOutput cs res]: the task loop entered with [n]
    iterations left at index [i] makes the calls [cs] and returns [res]. *)
Inductive TaskRun : nat -> Z -> string -> list Call -> unit + string -> Prop :=
| TaskCap i lo :
    TaskRun 0 i lo [] (inr errMaxIterations)
| TaskCanceled n i lo k e :
    ctx k = Some e ->
    TaskRun (S n) i lo [] (inr ("task phase: " ++ e))
| TaskNoPrompt n i lo e :
    taskPrompt i lo = inr e ->
    TaskRun (S n) i lo [] (inr e)
| TaskExecError n i lo p r e :
    taskPrompt i lo = inl p ->
    Error r = Some e ->
    TaskRun (S n) i lo [mkCall Claude p r] (inr ("claude execution: " ++ e))
| TaskFailed n i lo p r :
    taskPrompt i lo = inl p ->
    Error r = None ->
    Signal r = SignalFailed ->
    TaskRun (S n) i lo [mkCall Claude p r] (inr errTaskFailed)
| TaskCompleted n i lo p r :
    taskPrompt i lo = inl p ->
    Error r = None ->
    Signal r = SignalCompleted ->
    TaskRun (S n) i lo [mkCall Claude p r] (inl tt)
| TaskContinue n i lo p r cs res :
    taskPrompt i lo = inl p ->
    Error r = None ->
    IsTerminalSignal (Signal r) = false ->
    TaskRun n (i + 1)%Z (Output r) cs res ->
    TaskRun (S n) i lo (mkCall Claude p r :: cs) res.

(** [ReviewRun n p cs res]: the review loop entered with [n] iterations left
    and the prompt [p] makes the calls [cs] and returns [res]. *)
Inductive ReviewRun : nat -> string -> list Call -> unit + string -> Prop :=
| ReviewCap p :
    ReviewRun 0 p [] (inr errMaxReviewIterations)
| ReviewCanceled n p k e :
    ctx k = Some e ->
    ReviewRun (S n) p [] (inr ("review: " ++ e))
| ReviewExecError n p r e :
    Error r = Some e ->
    ReviewRun (S n) p [mkCall Claude p r] (inr ("claude execution: " ++ e))
| ReviewFailed n p r :
    Error r = None ->
    Signal r = SignalFailed ->
    ReviewRun (S n) p [mkCall Claude p r] (inr errReviewFailed)
| ReviewDone n p r :
    Error r = None ->
    Signal r = SignalReviewDone ->
    ReviewRun (S n) p [mkCall Claude p r] (inl tt)
| ReviewContinue n p r cs res :
    Error r = None ->
    Signal r <> SignalFailed ->
    Signal r <> SignalReviewDone ->
    ReviewRun n (buildContinuePrompt (Output r)) cs res ->
    ReviewRun (S n) p (mkCall Claude p r :: cs) res.

End Traces.

(** A result that lets a task iteration go on: no error, no terminal signal. *)
Definition taskContinues (c : Call) : Prop :=
  Error (result c) = None /\ IsTerminalSignal (Signal (result c)) = false.

(** A result that lets a review iteration go on. *)
Definition reviewContinues (c : Call) : Prop :=
  Error (result c) = None /\
  Signal (result c) <> SignalFailed /\
  Signal (result c) <> SignalReviewDone.

(** The agent explicitly emitted the failure signal. *)
Definition signalsFailure (c : Call) : Prop :=
  Error (result c) = None /\ Signal (result c) = SignalFailed.

(** How the Analysis step [cx] shapes the rest of the run: the calls [post]
    that follow it and the result [res] of the pipeline. *)
Definition FollowUp (ctx : Context) (cx : Call) (post : list Call)
    (res : unit + string) : Prop :=
  match Error (result cx) with
  | Some e => post = [] /\ res = inr ("codex phase: codex execution: " ++ e)
  | None =>
      if Output (result cx) =? ""
      then post = [] /\ res = inl tt
      else exists res',
          ReviewRun ctx (Z.to_nat maxReviewIterations)
                    (buildSecondReviewPrompt (Output (result cx))) post res' /\
          (res' = inl tt -> res = inl tt)
  end.

Section PipelineShapes.

Context {CS XS : Type}.
Variable claude : Executor CS.
Variable codex : Executor XS.
Variable ctx : Context.

(** The last two steps of the three pipelines, which differ in their log
    messages and error prefix only. *)
Definition analysisTail (msgFollow prefix msgDone : string) : M CS XS unit :=
  bind (wrapErr "codex phase: " (runCodexPhase codex))
       (fun findings =>
          bind (if negb (findings =? "")
                then bind (logSetPhase PhaseReview)
                       (fun _ => bind (logPrint msgFollow)
                       (fun _ => wrapErr prefix
                                   (runClaudeReview claude ctx
                                      (buildSecondReviewPrompt findings))))
                else ret tt)
               (fun _ => bind (logPrint msgDone) (fun _ => ret tt))).

(** The calls before the Analysis step are Claude's; the run either ends
    among them or goes through the Analysis step. *)
Definition PipelineShape (w w' : World CS XS) (res : unit + string) : Prop :=
  exists pre,
    Forall isClaude pre /\
    (calls w' = (calls w ++ pre)%list \/
     exists cx post,
       calls w' = (calls w ++ pre ++ cx :: post)%list /\
       isCodex cx /\ prompt cx = buildCodexPrompt /\ FollowUp ctx cx post res).

End PipelineShapes.

(* ------------------------------------------------------------------ *)
(** ** The unbounded line reader ([readLines]) *)

Module LineReader.

(** The error a read can end with: [io.EOF] or any other error. *)
Inductive ReadError : Type :=
| io_EOF
| io_Err (msg : string).

(** An [io.Reader] as [bufio.Reader.ReadString] sees it: the bytes that arrive
    before the stream ends, of any number, and the error that ends it. *)
Record Stream : Type := mkStream
  { pending : string;
    ending : ReadError }.

(** The bytes of [s] up to and including the first [delim], and the rest;
    [None] when [delim] does not occur. *)
Fixpoint cutAt (delim : ascii) (s : string) : option (string * string) :=
  match s with
  | EmptyString => None
  | String c s' =>
      if Ascii.eqb c delim then Some (String c EmptyString, s')
      else match cutAt delim s' with
           | Some (line, rest) => Some (String c line, rest)
           | None => None
           end
  end.

(** [reader.ReadString(delim)]: the line with its delimiter and a [nil] error,
    or what was read before the stream ended and the error that ended it. *)
Definition ReadString (delim : ascii) (r : Stream)
  : string * option ReadError * Stream :=
  match cutAt delim (pending r) with
  | Some (line, rest) => (line, None, mkStream rest (ending r))
  | None => (pending r, Some (ending r), mkStream EmptyString (ending r))
  end.

Definition LF : ascii := ascii_of_nat 10.
Definition CR : ascii := ascii_of_nat 13.

(** The cutset ["\r\n"] of the [strings.TrimRight] call. *)
Definition crlf : string := String CR (String LF EmptyString).

Section ReadLines.

(** The handler is a closure over some state [H] of its caller. *)
Context {H : Type}.
Variable ctx : Context.
Variable handler : H -> string -> H.

(** The [for] loop of [readLines] after [k] polls of [ctx.Done()]; [None]
    when [fuel] iterations were not enough.  The result is the returned
    [error] and the handler's state. *)
Fixpoint readLinesLoop (fuel k : nat) (r : Stream) (h : H)
  : option (option string * H) :=
  match fuel with
  | O => None
  | S fuel' =>
      match ctx k with
      | Some e => Some (Some e, h)
      | None =>
          let '(line, err, r') := ReadString LF r in
          let h' := if (0 <? String.length line)%nat
                    then handler h (TrimRight line crlf)
                    else h in
          match err with
          | None => readLinesLoop fuel' (S k) r' h'
          | Some io_EOF => Some (None, h')
          | Some (io_Err msg) => Some (Some msg, h')
          end
      end
  end.

(** Every iteration but the last consumes at least the delimiter, so one
    more iteration than there are bytes is always enough. *)
Definition readLines (r : Stream) (h : H) : option (option string * H) :=
  readLinesLoop (S (String.length (pending r))) 0 r h.

End ReadLines.

(** The handler that records what it is given, oldest first. *)
Definition collect (acc : list string) (line : string) : list string :=
  (acc ++ [line])%list.

(** *** The lines of a byte stream, in the specification's words

    A line ends at its terminator, a bare LF or CR LF; the terminator is
    stripped and nothing else; bytes after the last terminator form a final
    line. *)

(** [s] without one trailing CR. *)
Fixpoint stripOneCR (s : string) : string :=
  match s with
  | EmptyString => EmptyString
  | String c EmptyString => if Ascii.eqb c CR then EmptyString else s
  | String c s' => String c (stripOneCR s')
  end.

(** The bytes of [s] before its first LF, and the bytes after it. *)
Fixpoint breakLF (s : string) : option (string * string) :=
  match s with
  | EmptyString => None
  | String c s' =>
      if Ascii.eqb c LF then Some (EmptyString, s')
      else match breakLF s' with
           | Some (seg, rest) => Some (String c seg, rest)
           | None => None
           end
  end.

Fixpoint specLinesFuel (fuel : nat) (s : string) : list string :=
  match fuel with
  | O => []
  | S fuel' =>
      match breakLF s with
      | Some (seg, rest) => stripOneCR seg :: specLinesFuel fuel' rest
      | None => if (0 <? String.length s)%nat then [s] else []
      end
  end.

Definition specLines (s : string) : list string :=
  specLinesFuel (S (String.length s)) s.

(** [s] ends with a carriage return. *)
Fixpoint endsWithCR (s : string) : bool :=
  match s with
  | EmptyString => false
  | String c EmptyString => Ascii.eqb c CR
  | String _ s' => endsWithCR s'
  end.

(** How [readLines] returns at the end of the stream. *)
Definition endError (e : ReadError) : option string :=
  match e with
  | io_EOF => None
  | io_Err msg => Some msg
  end.

End LineReader.

(* ------------------------------------------------------------------ *)
(** ** The progress log on open ([NewLogger], [isProgressCompleted]) *)

Module Progress.

Definition completionMarker : string := "Completed:".

(** Modelled from the spec: [isProgressCompleted] of [pkg/progress/progress.go]
    is not among the sources; this follows the plan's description: seek to
    [max(0, fileSize - 256)], read the remainder, and test it with
    [strings.Contains(chunk, "Completed:")]; a file that cannot be opened is
    not completed. *)
Definition isProgressCompleted (file : option string) : bool :=
  match file with
  | None => false
  | Some content =>
      Contains (drop (String.length content - 256) content) completionMarker
  end.

(** A file opened with [O_APPEND]: every write goes to the end. *)
Definition fileWrite (content s : string) : string := content ++ s.

(** [f.Truncate(0)]. *)
Definition fileTruncate0 (content : string) : string := EmptyString.

Section NewLogger.

(** What [NewLogger] writes: the full header of a fresh log and the restart
    separator; their formats are not among the sources. *)
Variables header restartSeparator : string.

(** Modelled from the spec: [NewLogger] of [pkg/progress/progress.go] is not
    among the sources; this is the plan's decision logic after the lock is
    acquired.  The file is opened with [O_APPEND|O_CREATE|O_WRONLY], so a
    missing file ([None]) is created empty; then
      size == 0 -> write full header;
      size > 0 and isProgressCompleted -> truncate(0), write full header
        (restart = false);
      size > 0 and not isProgressCompleted -> write restart separator
        (restart = true).
    The result is the file's content after the open and the [restart] flag. *)
Definition NewLogger (file : option string) : string * bool :=
  let content := match file with
                 | None => EmptyString
                 | Some c => c
                 end in
  if (String.length content =? 0)%nat then
    (fileWrite content header, false)
  else if isProgressCompleted (Some content) then
    (fileWrite (fileTruncate0 content) header, false)
  else
    (fileWrite content restartSeparator, true).

End NewLogger.

(** The code's test read as a relation: the ["Completed:"] marker lies
    within the last 256 bytes of the file. *)
Definition markerInTail (content : string) : Prop :=
  exists pre post,
    content = pre ++ completionMarker ++ post /\
    (String.length (completionMarker ++ post) <= 256)%nat.

(** The footer that [Close] writes, in the plan's format
    [Completed: 2006-01-02 15:04:05 (elapsed)]: the marker, the timestamp
    and the elapsed time in parentheses. *)
Definition completionFooter (timestamp elapsed : string) : string :=
  completionMarker ++ " " ++ timestamp ++ " (" ++ elapsed ++ ")".

(** The file ends with the footer of a run that was closed: the footer is
    the last line of the file, on a line of its own, with or without a final
    line feed. *)
Definition endsWithFooter (content timestamp elapsed : string) : Prop :=
  HasByte LineReader.LF (timestamp ++ elapsed) = false /\
  exists body eol,
    content = body ++ completionFooter timestamp elapsed ++ eol /\
    (body = "" \/ exists b, body = b ++ nl) /\
    (eol = "" \/ eol = nl).

(** The specification's "file bearing a completion footer". *)
Definition bearsCompletionFooter (content : string) : Prop :=
  exists timestamp elapsed, endsWithFooter content timestamp elapsed.

End Progress.


(* ------------------------------------------------------------------ *)
(** ** Specifications of computations *)

(** The number of invocations of the executor [a] in a trace. *)
Fixpoint countCalls (a : Agent) (l : list Call) : nat :=
  match l with
  | [] => 0
  | c :: l' =>
      (match agent c, a with
       | Claude, Claude | Codex, Codex => 1
       | _, _ => 0
       end) + countCalls a l'
  end.

(** [hoare P m Q E]: started in a world that satisfies [P], the computation
    [m] ends in a world that satisfies [Q a] when it returns the value [a], and
    [E e] when it returns the error [e]. *)
Definition hoare {CS XS A : Type} (P : World CS XS -> Prop) (m : M CS XS A)
    (Q : A -> World CS XS -> Prop) (E : string -> World CS XS -> Prop) : Prop :=
  forall w, P w ->
    match m w with
    | (inl a, w') => Q a w'
    | (inr e, w') => E e w'
    end.

Section PollInvariants.

Context {CS XS : Type}.
Variable p : nat.

(** Every Claude invocation so far was preceded by a poll of its own that
    found the context live, and the poll of index [p] is still ahead. *)
Definition polledAhead (w : World CS XS) : Prop :=
  countCalls Claude (calls w) <= polls w /\ polls w <= p.

(** There are at most [p] Claude invocations. *)
Definition withinPolls (w : World CS XS) : Prop :=
  countCalls Claude (calls w) <= p.

(** The poll of the current iteration has been made and found the context
    live; its invocation is still to come. *)
Definition polledOnce (w : World CS XS) : Prop :=
  countCalls Claude (calls w) + 1 <= polls w /\ polls w <= p.

End PollInvariants.

(** ** Where a run fails *)

Section RunFailures.

Variable ctx : Context.
Variable ReadFile : FileSystem.
Variable cfg : Config.

(** The prefix a pipeline puts before the error of its follow-up review:
    ["review: "] in the codex-only pipeline, ["second review: "] in the two
    others. *)
Definition followUpPrefix : string :=
  if Mode cfg =? ModeCodexOnly then "review: " else "second review: ".

(** The calls [T] that precede the first Review phase: those of a Task phase
    that succeeded in full mode, none in review mode. *)
Definition precedesReview (T : list Call) : Prop :=
  (Mode cfg = ModeFull /\
   TaskRun ctx ReadFile cfg (Z.to_nat (MaxIterations cfg)) 1 "" T (inl tt)) \/
  (Mode cfg = ModeReview /\ T = []).

(** [RunFailure cs e]: a run that made the calls [cs] fails with the error
    [e].  Each phase has its own prefix, and what follows the prefix is the
    error with which that phase returned on its own calls. *)
Inductive RunFailure : list Call -> string -> Prop :=
| FailNoPlanFile :
    Mode cfg = ModeFull -> PlanFile cfg = "" ->
    RunFailure [] "plan file required for full mode"
| FailUnknownMode :
    Mode cfg <> ModeFull -> Mode cfg <> ModeReview -> Mode cfg <> ModeCodexOnly ->
    RunFailure [] ("unknown mode: " ++ Mode cfg)
| FailTaskPhase T e :
    Mode cfg = ModeFull ->
    TaskRun ctx ReadFile cfg (Z.to_nat (MaxIterations cfg)) 1 "" T (inr e) ->
    RunFailure T ("task phase: " ++ e)
| FailFirstReview T R e :
    precedesReview T ->
    ReviewRun ctx (Z.to_nat maxReviewIterations) buildFirstReviewPrompt R (inr e) ->
    RunFailure (T ++ R) ("first review: " ++ e)
| FailCodexPhase pre cx e :
    Forall isClaude pre -> isCodex cx ->
    Error (result cx) = Some e ->
    RunFailure (pre ++ [cx]) ("codex phase: codex execution: " ++ e)
| FailFollowUp pre cx R e :
    Forall isClaude pre -> isCodex cx ->
    Error (result cx) = None ->
    ReviewRun ctx (Z.to_nat maxReviewIterations)
              (buildSecondReviewPrompt (Output (result cx))) R (inr e) ->
    RunFailure (pre ++ cx :: R) (followUpPrefix ++ e).

End RunFailures.

(** The ways the Task loop, entered with [n] iterations left at index [i],
    can fail after the calls [cs] with the error [e]: the cap is reached, the
    context is cancelled, the plan file cannot be read (first iteration only),
    the executor fails, or the agent signals FAILED. *)
Definition TaskFailure (ctx : Context) (ReadFile : FileSystem) (cfg : Config)
    (n : nat) (i : Z) (cs : list Call) (e : string) : Prop :=
  (e = errMaxIterations cfg /\ List.length cs = n /\ Forall taskContinues cs) \/
  (exists k ce, ctx k = Some ce /\ e = "task phase: " ++ ce /\
                Forall taskContinues cs) \/
  (exists fe, i = 1%Z /\ ReadFile (PlanFile cfg) = inr fe /\
              e = "read plan file: " ++ fe /\ cs = []) \/
  (exists l c ee, cs = (l ++ [c])%list /\ Forall taskContinues l /\
                  Error (result c) = Some ee /\ e = "claude execution: " ++ ee) \/
  (exists l c, cs = (l ++ [c])%list /\ Forall taskContinues l /\
               signalsFailure c /\ e = errTaskFailed).

(** The ways the Review loop can fail. *)
Definition ReviewFailure (ctx : Context) (n : nat) (cs : list Call) (e : string)
  : Prop :=
  (e = errMaxReviewIterations /\ List.length cs = n /\ Forall reviewContinues cs) \/
  (exists k ce, ctx k = Some ce /\ e = "review: " ++ ce /\
                Forall reviewContinues cs) \/
  (exists l c ee, cs = (l ++ [c])%list /\ Forall reviewContinues l /\
                  Error (result c) = Some ee /\ e = "claude execution: " ++ ee) \/
  (exists l c, cs = (l ++ [c])%list /\ Forall reviewContinues l /\
               signalsFailure c /\ e = errReviewFailed).

(** The last byte of a string. *)
Fixpoint lastByte (s : string) : option ascii :=
  match s with
  | EmptyString => None
  | String c EmptyString => Some c
  | String _ s' => lastByte s'
  end.

(** What [readLines] hands to its handler when nothing stops it: each
    [ReadString] result with its trailing CR and LF bytes trimmed, the last
    one only if it is not empty. *)
Fixpoint deliveredFuel (fuel : nat) (s : string) : list string :=
  match fuel with
  | O => []
  | S fuel' =>
      match LineReader.cutAt LineReader.LF s with
      | Some (line, rest) => TrimRight line LineReader.crlf :: deliveredFuel fuel' rest
      | None => if (0 <? String.length s)%nat then [TrimRight s LineReader.crlf] else []
      end
  end.

Definition deliveredLines (s : string) : list string :=
  deliveredFuel (S (String.length s)) s.

(** The stream has bytes after its last LF (or no LF at all). *)
Definition unterminated (s : string) : bool :=
  match lastByte s with
  | Some c => negb (Ascii.eqb c LineReader.LF)
  | None => false
  end.

(** A line as the handler is meant to see it: it holds no line feed and
    does not end in a carriage return. *)
Definition trimmedLine (l : string) : Prop :=
  HasByte LineReader.LF l = false /\ LineReader.endsWithCR l = false.

(** [l] without its trailing carriage returns. *)
Definition trimCR (l : string) : string :=
  TrimRight l (String LineReader.CR EmptyString).

(** A context that is cancelled from its [p]-th poll on. *)
Definition canceledFrom (p : nat) : Context :=
  fun k => if (p <=? k)%nat then Some "context canceled" else None.

(** ** The wrapper script [scripts/codex-as-claude.sh]

    The script up to the point where it starts [codex]: the check for [jq],
    the loop over the positional parameters that extracts the prompt, the
    argument vector built for [codex] and the verbosity handed to [jq]. *)

Module CodexAsClaude.

(** The environment variables the script reads.  The script reads each one
    through [${VAR:-default}], which treats an unset variable and an empty
    one alike: both are the empty string here. *)
Record Env : Type := mkEnv
  { CODEX_MODEL : string;
    CODEX_SANDBOX : string;
    CODEX_VERBOSE : string }.

(** [${v:-d}]. *)
Definition orDefault (v d : string) : string :=
  if String.eqb v "" then d else v.

(** The [while [[ $# -gt 0 ]]] loop with its [case "$1"]: on [-p] the prompt
    becomes [${2:-}], the next word or the empty string when there is none,
    and both words are shifted away; any other word is shifted away.  The
    result is the value of [prompt] after the loop. *)
Fixpoint extractPrompt (prompt : string) (args : list string) : string :=
  match args with
  | [] => prompt
  | a :: rest =>
      if String.eqb a "-p" then
        match rest with
        | [] => ""
        | v :: rest' => extractPrompt v rest'
        end
      else extractPrompt prompt rest
  end.

(** The array [codex_args]. *)
Definition codex_args (env : Env) (prompt : string) : list string :=
  (["exec"; "--json"; "--dangerously-bypass-approvals-and-sandbox"; "-s";
    orDefault (CODEX_SANDBOX env) "danger-full-access"]
   ++ (if String.eqb (CODEX_MODEL env) "" then [] else ["-m"; CODEX_MODEL env])
   ++ [prompt])%list.

(** [CODEX_VERBOSE] after its default and its validation. *)
Definition verbose (env : Env) : string :=
  let v := orDefault (CODEX_VERBOSE env) "0" in
  if negb (String.eqb v "0") && negb (String.eqb v "1") then "0" else v.

(** How the script goes on: it exits with status 1 after a message on
    standard error, or it starts [codex] with an argument vector and hands
    [jq] a verbosity. *)
Inductive Outcome : Type :=
| Exit1 (stderr : string)
| StartCodex (args : list string) (verbosity : string).

(** [jq] tells whether [command -v jq] succeeds. *)
Definition run (jq : bool) (env : Env) (args : list string) : Outcome :=
  if negb jq then Exit1 "error: jq is required but not found"
  else
    let prompt := extractPrompt "" args in
    if String.eqb prompt "" then
      Exit1 "error: no prompt provided (-p flag required)"
    else StartCodex (codex_args env prompt) (verbose env).

End CodexAsClaude.

(* ================================================================== *)
(** * Properties *)

Import LineReader.

(** ** Strings *)

Section StringFacts.

Lemma append_nil_r (s : string) : s ++ "" = s.
Proof. induction s as [|c s IH]; simpl; [reflexivity | now rewrite IH]. Qed.

Lemma append_assoc (a b c : string) : (a ++ b) ++ c = a ++ (b ++ c).
Proof. induction a as [|x a IH]; simpl; [reflexivity | now rewrite IH]. Qed.

Lemma length_app (a b : string) :
  String.length (a ++ b) = String.length a + String.length b.
Proof. induction a as [|x a IH]; simpl; [reflexivity | now rewrite IH]. Qed.

Lemma take_drop (n : nat) (s : string) : take n s ++ drop n s = s.
Proof.
  revert s; induction n as [|n IH]; intros [|c s]; simpl; try reflexivity.
  now rewrite IH.
Qed.

Lemma length_drop (n : nat) (s : string) :
  String.length (drop n s) = String.length s - n.
Proof.
  revert s; induction n as [|n IH]; intros [|c s]; simpl; try reflexivity.
  apply IH.
Qed.

Lemma length_take (n : nat) (s : string) :
  String.length (take n s) = Nat.min n (String.length s).
Proof.
  revert s; induction n as [|n IH]; intros [|c s]; simpl; try reflexivity.
  now rewrite IH.
Qed.

Lemma HasPrefix_spec (s p : string) :
  HasPrefix s p = true <-> exists post, s = p ++ post.
Proof.
  revert s; induction p as [|a p IH]; intros s; simpl.
  - split; [intros _; now exists s | reflexivity].
  - destruct s as [|b s].
    + split; [discriminate | intros [post H]; discriminate].
    + rewrite andb_true_iff, Ascii.eqb_eq, IH. split.
      * intros [-> [post ->]]. now exists post.
      * intros [post H]. injection H as -> ->. split; [reflexivity | now exists post].
Qed.

Lemma Contains_spec (s sub : string) :
  Contains s sub = true <-> Occurs sub s.
Proof.
  unfold Occurs. induction s as [|c s IH].
  - simpl. rewrite orb_false_r, HasPrefix_spec. split.
    + intros [post H]. now exists "", post.
    + intros [[|x pre] [post H]]; [now exists post | discriminate].
  - cbn [Contains]. rewrite orb_true_iff, HasPrefix_spec, IH. split.
    + intros [[post H] | [pre [post H]]].
      * now exists "", post.
      * exists (String c pre), post. simpl. now rewrite H.
    + intros [[|x pre] [post H]].
      * left. now exists post.
      * right. simpl in H. injection H as -> ->. now exists pre, post.
Qed.

Lemma Occurs_middle (a sub b : string) : Occurs sub (a ++ sub ++ b).
Proof. now exists a, b. Qed.

Lemma Occurs_app_l (t a b : string) : Occurs t a -> Occurs t (a ++ b).
Proof.
  intros [pre [post ->]]. exists pre, (post ++ b).
  now rewrite !append_assoc.
Qed.

Lemma Occurs_app_r (t a b : string) : Occurs t b -> Occurs t (a ++ b).
Proof.
  intros [pre [post ->]]. exists (a ++ pre), post.
  now rewrite !append_assoc.
Qed.

(** A token free of the byte [c] that starts a string [a ++ c :: b] lies
    within [a]. *)
Lemma prefix_before_byte (c : ascii) (t : string) :
  HasByte c t = false ->
  forall a b post, t ++ post = a ++ String c b -> exists a', a = t ++ a'.
Proof.
  induction t as [|x t IH]; intros Hc a b post H.
  - now exists a.
  - simpl in Hc. apply orb_false_iff in Hc as [Hx Ht].
    destruct a as [|y a]; simpl in H.
    + injection H as -> _. now rewrite Ascii.eqb_refl in Hx.
    + injection H as -> H. destruct (IH Ht _ _ _ H) as [a' ->]. now exists a'.
Qed.

(** A token free of the byte [c] cannot straddle an occurrence of [c]. *)
Lemma Occurs_split_byte (c : ascii) (t a b : string) :
  HasByte c t = false ->
  Occurs t (a ++ String c b) -> Occurs t a \/ Occurs t b.
Proof.
  intros Hc. induction a as [|y a IH]; intros [pre [post H]].
  - destruct pre as [|z pre]; simpl in H.
    + destruct (prefix_before_byte c t Hc "" b post (eq_sym H)) as [a' Ha].
      left. exists "", a'. exact Ha.
    + injection H as _ ->. right. now exists pre, post.
  - destruct pre as [|z pre].
    + change (String y a ++ String c b = t ++ post) in H.
      destruct (prefix_before_byte c t Hc (String y a) b post (eq_sym H)) as [a' Ha].
      left. exists "", a'. exact Ha.
    + simpl in H. injection H as _ H.
      destruct IH as [[pre' [post' ->]] | Hb]; [now exists pre, post | |].
      * left. exists (String y pre'), post'. reflexivity.
      * now right.
Qed.

Lemma Contains_split_byte (c : ascii) (t a b : string) :
  HasByte c t = false ->
  Contains (a ++ String c b) t = Contains a t || Contains b t.
Proof.
  intros Hc. apply eq_true_iff_eq.
  rewrite orb_true_iff, !Contains_spec. split.
  - now apply Occurs_split_byte.
  - intros [H | H]; [now apply Occurs_app_l | ].
    apply Occurs_app_r. change (String c b) with (String c "" ++ b).
    now apply Occurs_app_r.
Qed.

End StringFacts.

(** ** Prompt builders *)

Section PromptFacts.

Lemma continueWindow_short (s : string) :
  String.length s <= 500 -> continueWindow s = s.
Proof.
  intros H. unfold continueWindow.
  destruct (Nat.ltb_spec 500 (String.length s)); [lia | reflexivity].
Qed.

Lemma continueWindow_long (s : string) :
  500 < String.length s ->
  String.length (continueWindow s) = 500 /\
  s = take (String.length s - 500) s ++ continueWindow s.
Proof.
  intros H. unfold continueWindow.
  destruct (Nat.ltb_spec 500 (String.length s)); [| lia].
  rewrite length_drop, take_drop. split; [lia | reflexivity].
Qed.

(** The fixed text around the window, cut at the line feeds that border it. *)
Lemma continueHead_cut :
  exists h, continueHead = h ++ nl /\ Contains h SignalReviewDone = false.
Proof. eexists (take (String.length continueHead - 1) continueHead). now vm_compute. Qed.

Lemma continueTail_cut :
  exists t, continueTail = nl ++ t /\ Contains t SignalReviewDone = false.
Proof. eexists (drop 1 continueTail). now vm_compute. Qed.

Lemma buildContinuePrompt_ReviewDone (out : string) :
  Contains (buildContinuePrompt out) SignalReviewDone
  = Contains (continueWindow out) SignalReviewDone.
Proof.
  destruct continueHead_cut as [h [Hh Hh']], continueTail_cut as [t [Ht Ht']].
  unfold buildContinuePrompt. rewrite Hh, Ht. unfold nl.
  rewrite append_assoc. cbn [append].
  rewrite !Contains_split_byte by reflexivity.
  now rewrite Hh', Ht', orb_false_r.
Qed.

Lemma buildContinuePrompt_Completed (out : string) :
  Contains (buildContinuePrompt out) SignalCompleted = true.
Proof.
  apply Contains_spec. unfold buildContinuePrompt.
  do 2 apply Occurs_app_r. apply Contains_spec. now vm_compute.
Qed.

Lemma buildContinuePrompt_Failed (out : string) :
  Contains (buildContinuePrompt out) SignalFailed = true.
Proof.
  apply Contains_spec. unfold buildContinuePrompt.
  do 2 apply Occurs_app_r. apply Contains_spec. now vm_compute.
Qed.

Lemma buildSecondReviewPrompt_findings (findings : string) :
  Occurs findings (buildSecondReviewPrompt findings).
Proof. apply Occurs_middle. Qed.

End PromptFacts.

(** C7. For every previous-output string, the continue prompt is the fixed
    head, a window of the previous output and the fixed tail; the window is
    the whole string when it has at most 500 bytes, and otherwise exactly its
    last 500 bytes (the string is some cut-off part followed by the window),
    so nothing more of the previous output is embedded. *)
Theorem buildContinuePrompt_window (previousOutput : string) :
  buildContinuePrompt previousOutput
  = continueHead ++ continueWindow previousOutput ++ continueTail /\
  if (String.length previousOutput <=? 500)%nat
  then continueWindow previousOutput = previousOutput
  else String.length (continueWindow previousOutput) = 500 /\
       exists cut, previousOutput = cut ++ continueWindow previousOutput.
Proof.
  split; [reflexivity |].
  destruct (Nat.leb_spec (String.length previousOutput) 500) as [H | H].
  - now apply continueWindow_short.
  - destruct (continueWindow_long previousOutput H) as [Hlen Hcut].
    split; [exact Hlen | eexists; exact Hcut].
Qed.

(** ** The loops are runs *)

Section LoopsAreRuns.

Context {CS XS : Type}.
Variable claude : Executor CS.
Variable codex : Executor XS.
Variable ctx : Context.
Variable ReadFile : FileSystem.
Variable cfg : Config.

Lemma IsTerminalSignal_cases (s : string) :
  IsTerminalSignal s = true -> (s =? SignalFailed) = false -> s = SignalCompleted.
Proof.
  unfold IsTerminalSignal. intros H Hf. rewrite Hf, orb_false_r in H.
  now apply String.eqb_eq.
Qed.

Lemma taskLoop_TaskRun (n : nat) :
  forall i lo (w w' : World CS XS) res,
    taskLoop claude ctx ReadFile cfg n i lo w = (res, w') ->
    exists cs,
      calls w' = (calls w ++ cs)%list /\ TaskRun ctx ReadFile cfg n i lo cs res.
Proof.
  induction n as [|n IH]; intros i lo w w' res H.
  - injection H as <- <-. exists []. rewrite app_nil_r. split; [reflexivity | constructor].
  - cbn [taskLoop] in H. unfold bind, ctxDone, logPrint in H.
    destruct (ctx (polls w)) as [e|] eqn:Hctx.
    + injection H as <- <-. exists []. simpl. rewrite app_nil_r.
      split; [reflexivity | now apply TaskCanceled with (k := polls w)].
    + destruct (taskPrompt ReadFile cfg i lo) as [p | e] eqn:Htp;
        pose proof Htp as Hp; unfold taskPrompt in Hp.
      * assert (Hq : (if (i =? 1)%Z
                      then liftErr (buildTaskPrompt ReadFile (PlanFile cfg) i)
                      else ret (buildContinuePrompt lo)) = @ret CS XS _ p).
        { destruct (i =? 1)%Z; [rewrite Hp; reflexivity | now injection Hp as ->]. }
        rewrite Hq in H. unfold ret at 1, claudeRun in H. simpl in H.
        destruct (claude (claudeSt w) p) as [r s] eqn:Hrun.
        destruct (Error r) as [e|] eqn:Herr.
        { injection H as <- <-. exists [mkCall Claude p r]. split; [reflexivity |].
          now apply TaskExecError. }
        destruct (IsTerminalSignal (Signal r)) eqn:Hterm.
        { destruct (Signal r =? SignalFailed) eqn:Hf.
          - injection H as <- <-. exists [mkCall Claude p r]. split; [reflexivity |].
            apply String.eqb_eq in Hf. now apply TaskFailed.
          - injection H as <- <-. exists [mkCall Claude p r]. split; [reflexivity |].
            apply TaskCompleted; auto using IsTerminalSignal_cases. }
        apply IH in H as [cs [Hcalls Hrun']]. simpl in Hcalls.
        exists (mkCall Claude p r :: cs). split.
        { rewrite Hcalls, <- app_assoc. reflexivity. }
        now apply TaskContinue.
      * assert (Hq : (if (i =? 1)%Z
                      then liftErr (buildTaskPrompt ReadFile (PlanFile cfg) i)
                      else ret (buildContinuePrompt lo)) = @throw CS XS _ e).
        { destruct (i =? 1)%Z; [rewrite Hp; reflexivity | discriminate]. }
        rewrite Hq in H. injection H as <- <-. exists []. simpl. rewrite app_nil_r.
        split; [reflexivity | now apply TaskNoPrompt].
Qed.

Lemma reviewLoop_ReviewRun (n : nat) :
  forall i p (w w' : World CS XS) res,
    reviewLoop claude ctx n i p w = (res, w') ->
    exists cs,
      calls w' = (calls w ++ cs)%list /\ ReviewRun ctx n p cs res.
Proof.
  induction n as [|n IH]; intros i p w w' res H.
  - injection H as <- <-. exists []. rewrite app_nil_r. split; [reflexivity | constructor].
  - cbn [reviewLoop] in H. unfold bind, ctxDone, logPrint, claudeRun in H.
    destruct (ctx (polls w)) as [e|] eqn:Hctx.
    + injection H as <- <-. exists []. simpl. rewrite app_nil_r.
      split; [reflexivity | now apply ReviewCanceled with (k := polls w)].
    + simpl in H. destruct (claude (claudeSt w) p) as [r s] eqn:Hrun.
      destruct (Error r) as [e|] eqn:Herr.
      { injection H as <- <-. exists [mkCall Claude p r]. split; [reflexivity |].
        now apply ReviewExecError. }
      destruct (Signal r =? SignalFailed) eqn:Hf.
      { injection H as <- <-. exists [mkCall Claude p r]. split; [reflexivity |].
        apply String.eqb_eq in Hf. now apply ReviewFailed. }
      unfold IsReviewDone in H.
      destruct (Signal r =? SignalReviewDone) eqn:Hd.
      { injection H as <- <-. exists [mkCall Claude p r]. split; [reflexivity |].
        apply String.eqb_eq in Hd. now apply ReviewDone. }
      apply IH in H as [cs [Hcalls Hrun']]. simpl in Hcalls.
      exists (mkCall Claude p r :: cs). split.
      { rewrite Hcalls, <- app_assoc. reflexivity. }
      apply String.eqb_neq in Hf, Hd. now apply ReviewContinue.
Qed.

End LoopsAreRuns.

(** ** Properties of runs *)

Section RunFacts.

Variable ctx : Context.
Variable ReadFile : FileSystem.
Variable cfg : Config.

Lemma last_cons {A : Type} (x : A) (l : list A) (y : A) :
  (exists l', l = l' ++ [y])%list -> (exists l', x :: l = l' ++ [y])%list.
Proof. intros [l' ->]. now exists (x :: l'). Qed.

Lemma TaskRun_calls n i lo cs res :
  TaskRun ctx ReadFile cfg n i lo cs res -> List.length cs <= n /\ Forall isClaude cs.
Proof.
  induction 1 as [ | | | | | | n i lo p r cs res _ _ _ _ [IHlen IHall]];
    simpl; repeat split; try lia; repeat constructor; auto.
Qed.

Lemma ReviewRun_calls n p cs res :
  ReviewRun ctx n p cs res -> List.length cs <= n /\ Forall isClaude cs.
Proof.
  induction 1 as [ | | | | | n p r cs res _ _ _ _ [IHlen IHall]];
    simpl; repeat split; try lia; repeat constructor; auto.
Qed.

(** *** Task phase *)

Lemma TaskRun_first_completed n i lo c cs res :
  TaskRun ctx ReadFile cfg n i lo (c :: cs) res ->
  Error (result c) = None ->
  Signal (result c) = SignalCompleted ->
  cs = [] /\ res = inl tt.
Proof.
  intros H He Hs. inversion H; subst; simpl in *; try congruence.
  - rewrite Hs in *. discriminate.
  - now split.
  - rewrite Hs in *. discriminate.
Qed.

Lemma taskPrompt_readable i lo content :
  ReadFile (PlanFile cfg) = inl content ->
  exists p, taskPrompt ReadFile cfg i lo = inl p.
Proof.
  intros Hr. unfold taskPrompt, buildTaskPrompt. rewrite Hr.
  destruct (i =? 1)%Z; eauto.
Qed.

Lemma TaskRun_all_continue n i lo cs res content :
  ctxLive ctx ->
  ReadFile (PlanFile cfg) = inl content ->
  TaskRun ctx ReadFile cfg n i lo cs res ->
  Forall taskContinues cs ->
  List.length cs = n /\ res = inr (errMaxIterations cfg).
Proof.
  intros Hctx Hplan Hrun.
  induction Hrun as [ i lo | n i lo k e Hk | n i lo e Hp | n i lo p r e Hp He
                    | n i lo p r Hp He Hs | n i lo p r Hp He Hs
                    | n i lo p r cs res Hp He Hs Hrun IH ];
    intros Hall.
  - now split.
  - rewrite Hctx in Hk. discriminate.
  - destruct (taskPrompt_readable i lo content Hplan) as [p Hp']. congruence.
  - inversion Hall as [|? ? [Hc _] _]; subst. simpl in Hc. congruence.
  - inversion Hall as [|? ? [_ Hc] _]; subst. simpl in Hc.
    rewrite Hs in Hc. discriminate.
  - inversion Hall as [|? ? [_ Hc] _]; subst. simpl in Hc.
    rewrite Hs in Hc. discriminate.
  - inversion Hall; subst. destruct IH as [IHlen IHres]; [assumption |].
    simpl. now rewrite IHlen.
Qed.

Lemma TaskRun_failed_last n i lo cs res :
  TaskRun ctx ReadFile cfg n i lo cs res ->
  forall c, In c cs -> signalsFailure c ->
  res = inr errTaskFailed /\ (exists l, cs = l ++ [c])%list.
Proof.
  induction 1 as [ i lo | n i lo k e Hk | n i lo e Hp | n i lo p r e Hp He
                 | n i lo p r Hp He Hs | n i lo p r Hp He Hs
                 | n i lo p r cs res Hp He Hs Hrun IH ];
    intros c Hin [Hce Hcs]; simpl in Hin; try contradiction.
  - destruct Hin as [<- | []]. simpl in Hce. congruence.
  - destruct Hin as [<- | []]. split; [reflexivity | now exists []].
  - destruct Hin as [<- | []]. simpl in Hcs. rewrite Hs in Hcs. discriminate.
  - destruct Hin as [<- | Hin].
    + simpl in Hcs. rewrite Hcs in Hs. discriminate.
    + destruct (IH c Hin (conj Hce Hcs)) as [Hres Hlast].
      split; [exact Hres | now apply last_cons].
Qed.

(** *** Review phase *)

Lemma ReviewRun_first n p c cs res :
  ReviewRun ctx n p (c :: cs) res -> prompt c = p.
Proof. intros H. inversion H; subst; reflexivity. Qed.

Lemma ReviewRun_starts n p cs res :
  ctxLive ctx -> ReviewRun ctx (S n) p cs res ->
  exists c rest, cs = c :: rest /\ prompt c = p.
Proof.
  intros Hctx H. inversion H; subst; try (eexists _, _; split; reflexivity).
  match goal with Hk : ctx _ = Some _ |- _ => rewrite Hctx in Hk; discriminate end.
Qed.

Lemma ReviewRun_success n p cs :
  ReviewRun ctx n p cs (inl tt) ->
  exists l c, (cs = l ++ [c])%list /\
              Error (result c) = None /\ Signal (result c) = SignalReviewDone.
Proof.
  intros H. remember (inl tt) as res eqn:Hres.
  induction H as [ p | n p k e Hk | n p r e He | n p r He Hs | n p r He Hs
                 | n p r cs res He Hf Hd Hrun IH ]; try discriminate.
  - exists [], (mkCall Claude p r). now repeat split.
  - destruct (IH Hres) as [l [c [-> Hc]]].
    now exists (mkCall Claude p r :: l), c.
Qed.

Lemma ReviewRun_failed_last n p cs res :
  ReviewRun ctx n p cs res ->
  forall c, In c cs -> signalsFailure c ->
  res = inr errReviewFailed /\ (exists l, cs = l ++ [c])%list.
Proof.
  induction 1 as [ p | n p k e Hk | n p r e He | n p r He Hs | n p r He Hs
                 | n p r cs res He Hf Hd Hrun IH ];
    intros c Hin [Hce Hcs]; simpl in Hin; try contradiction.
  - destruct Hin as [<- | []]. simpl in Hce. congruence.
  - destruct Hin as [<- | []]. split; [reflexivity | now exists []].
  - destruct Hin as [<- | []]. simpl in Hcs. rewrite Hs in Hcs. discriminate.
  - destruct Hin as [<- | Hin].
    + simpl in Hcs. contradiction.
    + destruct (IH c Hin (conj Hce Hcs)) as [Hres Hlast].
      split; [exact Hres | now apply last_cons].
Qed.

Lemma ReviewRun_done_last n p cs res :
  ReviewRun ctx n p cs res ->
  forall c, In c cs ->
  Error (result c) = None -> Signal (result c) = SignalReviewDone ->
  res = inl tt /\ (exists l, cs = l ++ [c])%list.
Proof.
  induction 1 as [ p | n p k e Hk | n p r e He | n p r He Hs | n p r He Hs
                 | n p r cs res He Hf Hd Hrun IH ];
    intros c Hin Hce Hcs; simpl in Hin; try contradiction.
  - destruct Hin as [<- | []]. simpl in Hce. congruence.
  - destruct Hin as [<- | []]. simpl in Hcs. rewrite Hs in Hcs. discriminate.
  - destruct Hin as [<- | []]. split; [reflexivity | now exists []].
  - destruct Hin as [<- | Hin].
    + simpl in Hcs. contradiction.
    + destruct (IH c Hin Hce Hcs) as [Hres Hlast].
      split; [exact Hres | now apply last_cons].
Qed.

Lemma ReviewRun_all_continue n p cs res :
  ctxLive ctx ->
  ReviewRun ctx n p cs res ->
  Forall reviewContinues cs ->
  List.length cs = n /\ res = inr errMaxReviewIterations.
Proof.
  intros Hctx Hrun.
  induction Hrun as [ p | n p k e Hk | n p r e He | n p r He Hs | n p r He Hs
                    | n p r cs res He Hf Hd Hrun IH ];
    intros Hall.
  - now split.
  - rewrite Hctx in Hk. discriminate.
  - inversion Hall as [|? ? [Hc _] _]; subst. simpl in Hc. congruence.
  - inversion Hall as [|? ? [_ [Hc _]] _]; subst. simpl in Hc. contradiction.
  - inversion Hall as [|? ? [_ [_ Hc]] _]; subst. simpl in Hc. contradiction.
  - inversion Hall; subst. destruct IH as [IHlen IHres]; [assumption |].
    simpl. now rewrite IHlen.
Qed.

(** Two consecutive review calls: the first result let the loop go on, and
    the second prompt is the continue prompt of the first output. *)
Lemma ReviewRun_chain n p cs res :
  ReviewRun ctx n p cs res ->
  forall l1 c1 c2 l2, (cs = l1 ++ c1 :: c2 :: l2)%list ->
  reviewContinues c1 /\ prompt c2 = buildContinuePrompt (Output (result c1)).
Proof.
  induction 1 as [ p | n p k e Hk | n p r e He | n p r He Hs | n p r He Hs
                 | n p r cs res He Hf Hd Hrun IH ];
    intros l1 c1 c2 l2 Heq;
    try (destruct l1 as [|? [|? ?]]; discriminate).
  destruct l1 as [|c0 l1]; simpl in Heq; injection Heq as <- ->.
  - split; [now repeat split |].
    now apply ReviewRun_first in Hrun.
  - now apply (IH l1 c1 c2 l2).
Qed.

End RunFacts.

(** ** The phases *)

Section PhaseFacts.

Context {CS XS : Type}.
Variable claude : Executor CS.
Variable codex : Executor XS.
Variable ctx : Context.
Variable ReadFile : FileSystem.
Variable cfg : Config.

Lemma newCalls_app (w w' : World CS XS) cs :
  calls w' = (calls w ++ cs)%list -> newCalls w w' = cs.
Proof.
  intros H. unfold newCalls. rewrite H.
  rewrite skipn_app, skipn_all, Nat.sub_diag. reflexivity.
Qed.

Lemma runTaskPhase_TaskRun (w : World CS XS) :
  let run := runTaskPhase claude ctx ReadFile cfg w in
  calls (snd run) = (calls w ++ newCalls w (snd run))%list /\
  TaskRun ctx ReadFile cfg (Z.to_nat (MaxIterations cfg)) 1 ""
          (newCalls w (snd run)) (fst run).
Proof.
  intros run. subst run. unfold runTaskPhase.
  destruct (taskLoop claude ctx ReadFile cfg _ 1 "" w) as [res w'] eqn:H.
  apply taskLoop_TaskRun in H as [cs [Hcalls Hrun]]. simpl.
  rewrite (newCalls_app _ _ _ Hcalls). now split.
Qed.

Lemma runClaudeReview_ReviewRun (p : string) (w : World CS XS) :
  let run := runClaudeReview claude ctx p w in
  calls (snd run) = (calls w ++ newCalls w (snd run))%list /\
  ReviewRun ctx (Z.to_nat maxReviewIterations) p (newCalls w (snd run)) (fst run).
Proof.
  intros run. subst run. unfold runClaudeReview.
  destruct (reviewLoop claude ctx _ 1 p w) as [res w'] eqn:H.
  apply reviewLoop_ReviewRun in H as [cs [Hcalls Hrun]]. simpl.
  rewrite (newCalls_app _ _ _ Hcalls). now split.
Qed.

End PhaseFacts.

(** C1. In every run of the Task phase: when the first executor result has
    no error and the signal COMPLETED, the phase returns success and that
    invocation is the only one; and, with an iteration cap [N >= 1], a
    readable plan file and a context that is not cancelled, when every result
    has no error and a signal that is neither COMPLETED nor FAILED (such as
    REVIEW_DONE, CODEX_DONE or none), the phase makes exactly [N] invocations
    and fails with the max-iterations error. *)
Theorem runTaskPhase_iterations {CS XS : Type} (claude : Executor CS)
    (ctx : Context) (ReadFile : FileSystem) (cfg : Config) (w : World CS XS) :
  let run := runTaskPhase claude ctx ReadFile cfg w in
  let cs := newCalls w (snd run) in
  calls (snd run) = (calls w ++ cs)%list /\
  (forall c, hd_error cs = Some c ->
             Error (result c) = None -> Signal (result c) = SignalCompleted ->
             fst run = inl tt /\ List.length cs = 1) /\
  (forall content,
      (1 <= MaxIterations cfg)%Z ->
      ReadFile (PlanFile cfg) = inl content ->
      ctxLive ctx ->
      Forall taskContinues cs ->
      fst run = inr (errMaxIterations cfg) /\
      Z.of_nat (List.length cs) = MaxIterations cfg) /\
  (IsTerminalSignal SignalReviewDone = false /\
   IsTerminalSignal SignalCodexDone = false /\
   IsTerminalSignal "" = false).
Proof.
  intros run cs.
  destruct (runTaskPhase_TaskRun claude ctx ReadFile cfg w) as [Hcalls Hrun].
  fold run in Hcalls, Hrun. fold cs in Hcalls, Hrun.
  split; [exact Hcalls |]. split; [| split; [| now repeat split]].
  - intros c Hhd He Hs. destruct cs as [|c' rest]; [discriminate |].
    injection Hhd as ->.
    destruct (TaskRun_first_completed _ _ _ _ _ _ _ _ _ Hrun He Hs) as [-> ->].
    now split.
  - intros content HN Hplan Hctx Hall.
    destruct (TaskRun_all_continue _ _ _ _ _ _ _ _ _ Hctx Hplan Hrun Hall) as [Hlen ->].
    split; [reflexivity |]. rewrite Hlen. lia.
Qed.

Lemma runTaskPhase_iterations_witness :
  let cfg := mkConfig "plan.md" ModeFull 3 false false in
  let fs := planFS "plan.md" "# Plan" in
  let w0 : World nat nat := initWorld 0 0 in
  (let run := runTaskPhase (mockExecutor [ok "task done" SignalCompleted])
                           liveCtx fs cfg w0 in
   fst run = inl tt /\ List.length (newCalls w0 (snd run)) = 1) /\
  (let run := runTaskPhase
                (mockExecutor [ok "working..." ""; ok "still working..." "";
                               ok "more work..." ""])
                liveCtx fs cfg w0 in
   fst run = inr "max iterations (3) reached without completion" /\
   Z.of_nat (List.length (newCalls w0 (snd run))) = 3%Z).
Proof.
  intros cfg fs w0. split.
  - intros run.
    apply (proj1 (proj2 (runTaskPhase_iterations
                           (mockExecutor [ok "task done" SignalCompleted])
                           liveCtx fs cfg w0))
             (mkCall Claude (taskPromptHead 1 ++ "# Plan" ++ taskPromptTail)
                     (ok "task done" SignalCompleted)));
      reflexivity.
  - intros run.
    apply (proj1 (proj2 (proj2 (runTaskPhase_iterations
                           (mockExecutor [ok "working..." ""; ok "still working..." "";
                                          ok "more work..." ""])
                           liveCtx fs cfg w0)))
             "# Plan").
    + vm_compute. discriminate.
    + reflexivity.
    + intros k. reflexivity.
    + vm_compute. repeat constructor.
Defined.

(** C5 (as amended). Whenever an executor result of the Task or the Review
    phase has no error and the signal FAILED, the phase stops at once: that
    invocation is the last one, and the phase returns a fatal error whose
    message is fixed for the phase, ["task execution failed (FAILED signal
    received)"] or ["review failed (FAILED signal received)"]; the result's
    output is not part of it. *)
Theorem failed_signal_stops_phase {CS XS : Type} (claude : Executor CS)
    (ctx : Context) (ReadFile : FileSystem) (cfg : Config) (p : string)
    (w : World CS XS) :
  (let run := runTaskPhase claude ctx ReadFile cfg w in
   forall c, In c (newCalls w (snd run)) -> signalsFailure c ->
     fst run = inr "task execution failed (FAILED signal received)" /\
     exists l, newCalls w (snd run) = (l ++ [c])%list) /\
  (let run := runClaudeReview claude ctx p w in
   forall c, In c (newCalls w (snd run)) -> signalsFailure c ->
     fst run = inr "review failed (FAILED signal received)" /\
     exists l, newCalls w (snd run) = (l ++ [c])%list).
Proof.
  split; intros run c Hin Hc.
  - destruct (runTaskPhase_TaskRun claude ctx ReadFile cfg w) as [_ Hrun].
    exact (TaskRun_failed_last _ _ _ _ _ _ _ _ Hrun c Hin Hc).
  - destruct (runClaudeReview_ReviewRun claude ctx p w) as [_ Hrun].
    exact (ReviewRun_failed_last _ _ _ _ _ Hrun c Hin Hc).
Qed.

Lemma failed_signal_stops_phase_witness :
  let cfg := mkConfig "plan.md" ModeFull 10 false false in
  let fs := planFS "plan.md" "# Plan" in
  let w0 : World nat nat := initWorld 0 0 in
  let claude := mockExecutor [ok "working..." ""; ok "error occurred" SignalFailed;
                              ok "never asked" SignalCompleted] in
  (let run := runTaskPhase claude liveCtx fs cfg w0 in
   fst run = inr "task execution failed (FAILED signal received)" /\
   exists l, newCalls w0 (snd run)
             = (l ++ [mkCall Claude (buildContinuePrompt "working...")
                             (ok "error occurred" SignalFailed)])%list) /\
  (let run := runClaudeReview claude liveCtx buildFirstReviewPrompt w0 in
   fst run = inr "review failed (FAILED signal received)" /\
   exists l, newCalls w0 (snd run)
             = (l ++ [mkCall Claude (buildContinuePrompt "working...")
                             (ok "error occurred" SignalFailed)])%list).
Proof.
  intros cfg fs w0 claude. split; intros run.
  - apply (proj1 (failed_signal_stops_phase claude liveCtx fs cfg "" w0)).
    + vm_compute. right. left. reflexivity.
    + split; reflexivity.
  - apply (proj2 (failed_signal_stops_phase claude liveCtx fs cfg
                    buildFirstReviewPrompt w0)).
    + vm_compute. right. left. reflexivity.
    + split; reflexivity.
Defined.

(** C5, the claim as stated fails: the test double of
    [TestRunner_TaskPhase_FailedSignal] answers FAILED with the explanation
    ["error occurred"]; the error of the Task phase, of the Review phase and of
    the whole run is returned without that text. *)
Lemma failed_signal_error_omits_output :
  let cfg := mkConfig "plan.md" ModeFull 10 false false in
  let fs := planFS "plan.md" "# Plan" in
  let w0 : World nat nat := initWorld 0 0 in
  let r := ok "error occurred" SignalFailed in
  let claude := mockExecutor [r] in
  Error r = None /\ Signal r = SignalFailed /\
  (exists p e, newCalls w0 (snd (runTaskPhase claude liveCtx fs cfg w0)) = [mkCall Claude p r] /\
               fst (runTaskPhase claude liveCtx fs cfg w0) = inr e /\
               Contains e (Output r) = false) /\
  (exists p e, newCalls w0 (snd (runClaudeReview claude liveCtx buildFirstReviewPrompt w0))
               = [mkCall Claude p r] /\
               fst (runClaudeReview claude liveCtx buildFirstReviewPrompt w0) = inr e /\
               Contains e (Output r) = false) /\
  (exists e, fst (Run claude (mockExecutor []) liveCtx fs cfg w0) = inr e /\
             Contains e (Output r) = false).
Proof.
  intros cfg fs w0 r claude. repeat split.
  - eexists _, _. repeat split; vm_compute; reflexivity.
  - eexists _, _. repeat split; vm_compute; reflexivity.
  - eexists. split; vm_compute; reflexivity.
Qed.

Section ReviewFacts.

Variable ctx : Context.

Lemma ReviewRun_all_but_last n p cs res :
  ReviewRun ctx n p cs res ->
  forall l c, (cs = l ++ [c])%list -> Forall reviewContinues l.
Proof.
  induction 1 as [ p | n p k e Hk | n p r e He | n p r He Hs | n p r He Hs
                 | n p r cs res He Hf Hd Hrun IH ];
    intros l c Heq;
    try (destruct l as [|? [|? ?]]; [constructor | discriminate ..]).
  destruct l as [|c0 l]; [constructor |].
  simpl in Heq. injection Heq as <- ->. constructor.
  - now repeat split.
  - now apply (IH l c).
Qed.

Lemma ReviewRun_last_continues n p l c res :
  ctxLive ctx ->
  ReviewRun ctx n p (l ++ [c]) res ->
  reviewContinues c ->
  List.length (l ++ [c]) = n /\ res = inr errMaxReviewIterations.
Proof.
  intros Hctx Hrun Hc. apply (ReviewRun_all_continue ctx n p _ res Hctx Hrun).
  apply Forall_app. split.
  - now apply (ReviewRun_all_but_last _ _ _ _ Hrun l c).
  - constructor; [exact Hc | constructor].
Qed.

End ReviewFacts.

Lemma errMaxReviewIterations_distinct (cfg : Config) :
  errMaxReviewIterations <> errMaxIterations cfg.
Proof. unfold errMaxReviewIterations, errMaxIterations. simpl. discriminate. Qed.

(** C6 (as amended). Every Review phase loop succeeds only on a result with
    the signal REVIEW_DONE, fails on the signal FAILED, and otherwise iterates;
    it enforces its own cap, the constant 10, which does not depend on the
    Task phase's configured maximum (it is the smaller one only when that
    maximum exceeds 10): never more than 10 invocations, and, while the
    context is not cancelled, a tenth result that still carries neither
    signal yields the max-review-iterations error, which differs from the
    Task phase's max-iterations error. *)
Theorem runClaudeReview_loop {CS XS : Type} (claude : Executor CS)
    (ctx : Context) (p : string) (w : World CS XS) :
  let run := runClaudeReview claude ctx p w in
  let cs := newCalls w (snd run) in
  (fst run = inl tt ->
   exists l c, cs = (l ++ [c])%list /\
               Error (result c) = None /\ Signal (result c) = SignalReviewDone) /\
  (forall c, In c cs -> signalsFailure c ->
             fst run = inr errReviewFailed /\ exists l, cs = (l ++ [c])%list) /\
  (forall l1 c1 c2 l2, cs = (l1 ++ c1 :: c2 :: l2)%list -> reviewContinues c1) /\
  (Z.of_nat (List.length cs) <= maxReviewIterations)%Z /\
  (ctxLive ctx ->
   forall l c, cs = (l ++ [c])%list -> reviewContinues c ->
               Z.of_nat (List.length cs) = maxReviewIterations /\
               fst run = inr errMaxReviewIterations) /\
  (forall cfg, errMaxReviewIterations <> errMaxIterations cfg).
Proof.
  intros run cs.
  destruct (runClaudeReview_ReviewRun claude ctx p w) as [_ Hrun].
  fold run in Hrun. fold cs in Hrun.
  split; [| split; [| split; [| split; [| split]]]].
  - intros Hok. rewrite Hok in Hrun. exact (ReviewRun_success _ _ _ _ Hrun).
  - intros c Hin Hc. exact (ReviewRun_failed_last _ _ _ _ _ Hrun c Hin Hc).
  - intros l1 c1 c2 l2 Heq.
    exact (proj1 (ReviewRun_chain _ _ _ _ _ Hrun l1 c1 c2 l2 Heq)).
  - apply ReviewRun_calls in Hrun as [Hlen _].
    change maxReviewIterations with (Z.of_nat (Z.to_nat maxReviewIterations)).
    now apply Nat2Z.inj_le.
  - intros Hctx l c Heq Hc. rewrite Heq in Hrun |- *.
    destruct (ReviewRun_last_continues _ _ _ _ _ _ Hctx Hrun Hc) as [Hlen ->].
    split; [| reflexivity]. rewrite Hlen. reflexivity.
  - apply errMaxReviewIterations_distinct.
Qed.

Lemma runClaudeReview_loop_witness :
  let w0 : World nat nat := initWorld 0 0 in
  (let run := runClaudeReview
                (mockExecutor [ok "looking" SignalCompleted; ok "review done" SignalReviewDone])
                liveCtx buildFirstReviewPrompt w0 in
   exists l c, newCalls w0 (snd run) = (l ++ [c])%list /\
               Error (result c) = None /\ Signal (result c) = SignalReviewDone) /\
  (let run := runClaudeReview (mockExecutor [ok "error" SignalFailed])
                liveCtx buildFirstReviewPrompt w0 in
   fst run = inr errReviewFailed /\
   exists l, newCalls w0 (snd run)
             = (l ++ [mkCall Claude buildFirstReviewPrompt (ok "error" SignalFailed)])%list) /\
  (let run := runClaudeReview (mockExecutor stillReviewing)
                liveCtx buildFirstReviewPrompt w0 in
   Z.of_nat (List.length (newCalls w0 (snd run))) = maxReviewIterations /\
   fst run = inr errMaxReviewIterations).
Proof.
  intros w0. split; [| split].
  - intros run.
    apply (proj1 (runClaudeReview_loop
                    (mockExecutor [ok "looking" SignalCompleted;
                                   ok "review done" SignalReviewDone])
                    liveCtx buildFirstReviewPrompt w0)).
    reflexivity.
  - intros run.
    apply (proj1 (proj2 (runClaudeReview_loop (mockExecutor [ok "error" SignalFailed])
                           liveCtx buildFirstReviewPrompt w0))).
    + vm_compute. left. reflexivity.
    + split; reflexivity.
  - intros run.
    apply (proj1 (proj2 (proj2 (proj2 (proj2
             (runClaudeReview_loop (mockExecutor stillReviewing)
                liveCtx buildFirstReviewPrompt w0)))))
             (fun k => eq_refl)
             (removelast (newCalls w0 (snd run)))
             (mkCall Claude (buildContinuePrompt "still reviewing...")
                     (ok "still reviewing..." ""))).
    + vm_compute. reflexivity.
    + repeat split; vm_compute; discriminate.
Defined.

(** C6, the claim as stated fails: with the configured maximum of 3 task
    iterations of [TestRunner_TaskPhase_MaxIterations], a full run whose task
    completes at once and whose review never signals makes 10 review
    invocations before the review cap stops it; the review cap is not the
    smaller one. *)
Lemma review_cap_not_smaller :
  let cfg := mkConfig "plan.md" ModeFull 3 false false in
  let fs := planFS "plan.md" "# Plan" in
  let w0 : World nat nat := initWorld 0 0 in
  let claude := mockExecutor (ok "task done" SignalCompleted :: stillReviewing) in
  let run := Run claude (mockExecutor []) liveCtx fs cfg w0 in
  fst run = inr "first review: max review iterations (10) reached" /\
  List.length (calls (snd run)) = 1 + 10 /\
  ~ (maxReviewIterations < MaxIterations cfg)%Z.
Proof.
  intros cfg fs w0 claude run. repeat split.
  vm_compute. discriminate.
Qed.

(** C9. In the Review phase every iteration after the first follows a result
    with no error and neither REVIEW_DONE nor FAILED, and sends the continue
    prompt of that result's output; that prompt tells the agent to output
    COMPLETED or FAILED, and REVIEW_DONE occurs in it only where the embedded
    window of the previous output has it, not in the builder's own text.  Yet
    the loop succeeds only on REVIEW_DONE, and a last result with COMPLETED,
    while the context is not cancelled, is the tenth one and ends the phase
    with the max-review-iterations error. *)
Theorem runClaudeReview_continue_prompt {CS XS : Type} (claude : Executor CS)
    (ctx : Context) (p : string) (w : World CS XS) :
  let run := runClaudeReview claude ctx p w in
  let cs := newCalls w (snd run) in
  (forall l1 c1 c2 l2, cs = (l1 ++ c1 :: c2 :: l2)%list ->
     reviewContinues c1 /\
     prompt c2 = buildContinuePrompt (Output (result c1)) /\
     Contains (prompt c2) SignalCompleted = true /\
     Contains (prompt c2) SignalFailed = true /\
     Contains (prompt c2) SignalReviewDone
     = Contains (continueWindow (Output (result c1))) SignalReviewDone) /\
  Contains (continueHead ++ continueTail) SignalReviewDone = false /\
  (fst run = inl tt ->
   exists l c, cs = (l ++ [c])%list /\ Signal (result c) = SignalReviewDone) /\
  (ctxLive ctx ->
   forall l c, cs = (l ++ [c])%list ->
     Error (result c) = None -> Signal (result c) = SignalCompleted ->
     fst run = inr errMaxReviewIterations /\
     Z.of_nat (List.length cs) = maxReviewIterations).
Proof.
  intros run cs.
  destruct (runClaudeReview_ReviewRun claude ctx p w) as [_ Hrun].
  fold run in Hrun. fold cs in Hrun.
  split; [| split; [| split]].
  - intros l1 c1 c2 l2 Heq.
    destruct (ReviewRun_chain _ _ _ _ _ Hrun l1 c1 c2 l2 Heq) as [Hc Hp].
    rewrite Hp. split; [exact Hc |]. split; [reflexivity |].
    split; [apply buildContinuePrompt_Completed |].
    split; [apply buildContinuePrompt_Failed | apply buildContinuePrompt_ReviewDone].
  - now vm_compute.
  - intros Hok. rewrite Hok in Hrun.
    destruct (ReviewRun_success _ _ _ _ Hrun) as [l [c [Heq [_ Hs]]]].
    now exists l, c.
  - intros Hctx l c Heq He Hs. rewrite Heq in Hrun |- *.
    assert (Hc : reviewContinues c).
    { repeat split; [exact He | rewrite Hs; discriminate ..]. }
    destruct (ReviewRun_last_continues _ _ _ _ _ _ Hctx Hrun Hc) as [Hlen ->].
    split; [reflexivity |]. rewrite Hlen. reflexivity.
Qed.

Lemma runClaudeReview_continue_prompt_witness :
  let w0 : World nat nat := initWorld 0 0 in
  let r1 := ok "all tasks look fine" SignalCompleted in
  let r2 := ok "review done" SignalReviewDone in
  (let run := runClaudeReview (mockExecutor [r1; r2]) liveCtx buildFirstReviewPrompt w0 in
   let c2 := mkCall Claude (buildContinuePrompt "all tasks look fine") r2 in
   reviewContinues (mkCall Claude buildFirstReviewPrompt r1) /\
   prompt c2 = buildContinuePrompt (Output r1) /\
   Contains (prompt c2) SignalCompleted = true /\
   Contains (prompt c2) SignalFailed = true /\
   Contains (prompt c2) SignalReviewDone
   = Contains (continueWindow (Output r1)) SignalReviewDone) /\
  (let run := runClaudeReview (mockExecutor (repeat r1 10)) liveCtx buildFirstReviewPrompt w0 in
   fst run = inr errMaxReviewIterations /\
   Z.of_nat (List.length (newCalls w0 (snd run))) = maxReviewIterations).
Proof.
  intros w0 r1 r2. split.
  - intros run c2.
    apply (proj1 (runClaudeReview_continue_prompt (mockExecutor [r1; r2]) liveCtx
                    buildFirstReviewPrompt w0)
             [] (mkCall Claude buildFirstReviewPrompt r1) c2 []).
    reflexivity.
  - intros run.
    apply (proj2 (proj2 (proj2 (runClaudeReview_continue_prompt
                                  (mockExecutor (repeat r1 10)) liveCtx
                                  buildFirstReviewPrompt w0)))
             (fun k => eq_refl)
             (removelast (newCalls w0 (snd run)))
             (mkCall Claude (buildContinuePrompt "all tasks look fine") r1)).
    + vm_compute. reflexivity.
    + reflexivity.
    + reflexivity.
Defined.

Lemma runCodexPhase_call {CS XS : Type} (codex : Executor XS) (w : World CS XS) :
  let r := fst (codex (codexSt w) buildCodexPrompt) in
  let run := runCodexPhase codex w in
  fst run = match Error r with
            | None => inl (Output r)
            | Some e => inr ("codex execution: " ++ e)
            end /\
  calls (snd run) = (calls w ++ [mkCall Codex buildCodexPrompt r])%list.
Proof.
  intros r run. subst r run. unfold runCodexPhase, bind, codexRun.
  destruct (codex (codexSt w) buildCodexPrompt) as [r s]. simpl.
  destruct (Error r) as [e|]; simpl; [now split |].
  destruct (Output r =? "") eqn:Hout; simpl; [| now split].
  apply String.eqb_eq in Hout. rewrite Hout. now split.
Qed.

Lemma withSignal_result {S : Type} (sig : string) (e : Executor S) (s : S) (p : string) :
  Output (fst (withSignal sig e s p)) = Output (fst (e s p)) /\
  Error (fst (withSignal sig e s p)) = Error (fst (e s p)) /\
  Signal (fst (withSignal sig e s p)) = sig.
Proof. unfold withSignal. now destruct (e s p). Qed.

(** C10. The Analysis phase makes one codex invocation and never looks at
    the result's signal: with no error it succeeds and returns the output as
    the findings (none when the output is empty), whatever the signal is,
    FAILED and CODEX_DONE included; it fails exactly when the result carries
    an error. *)
Theorem runCodexPhase_ignores_signal {CS XS : Type} (codex : Executor XS)
    (w : World CS XS) :
  let r := fst (codex (codexSt w) buildCodexPrompt) in
  let run := runCodexPhase codex w in
  fst run = match Error r with
            | None => inl (Output r)
            | Some e => inr ("codex execution: " ++ e)
            end /\
  newCalls w (snd run) = [mkCall Codex buildCodexPrompt r] /\
  (forall sig, fst (runCodexPhase (withSignal sig codex) w) = fst run).
Proof.
  intros r run.
  destruct (runCodexPhase_call codex w) as [Hres Hcalls].
  fold r in Hres, Hcalls. fold run in Hres, Hcalls.
  split; [exact Hres |]. split; [now apply newCalls_app |].
  intros sig. rewrite Hres.
  destruct (runCodexPhase_call (withSignal sig codex) w) as [Hres' _].
  rewrite Hres'.
  destruct (withSignal_result sig codex (codexSt w) buildCodexPrompt) as [-> [-> _]].
  reflexivity.
Qed.

(** A codex answer that carries FAILED is a successful analysis with
    findings. *)
Example runCodexPhase_FAILED_signal :
  fst (runCodexPhase (mockExecutor [ok "cannot analyse" SignalFailed])
         (initWorld 0 0 : World nat nat))
  = inl "cannot analyse".
Proof. reflexivity. Qed.

(** C8. In full mode a run with no plan file configured fails at once with
    the configuration error, before any executor invocation; with a plan file
    that cannot be read, the first Task iteration (the cap being at least 1
    and the context live when it starts) fails with the read-plan-file error,
    again before any invocation.  In review and codex-only mode the run is the
    same whatever the plan file and the file system are: the plan file is
    neither required nor read. *)
Theorem plan_file_requirements {CS XS : Type} (claude : Executor CS)
    (codex : Executor XS) (ctx : Context) (ReadFile : FileSystem) (cfg : Config)
    (w : World CS XS) :
  (Mode cfg = ModeFull -> PlanFile cfg = "" ->
   Run claude codex ctx ReadFile cfg w = (inr "plan file required for full mode", w)) /\
  (Mode cfg = ModeFull -> PlanFile cfg <> "" ->
   forall e, ReadFile (PlanFile cfg) = inr e ->
   (1 <= MaxIterations cfg)%Z -> ctx (polls w) = None ->
   fst (Run claude codex ctx ReadFile cfg w) = inr ("task phase: read plan file: " ++ e) /\
   calls (snd (Run claude codex ctx ReadFile cfg w)) = calls w) /\
  (Mode cfg = ModeReview \/ Mode cfg = ModeCodexOnly ->
   forall ReadFile' planFile',
     Run claude codex ctx ReadFile' (setPlanFile planFile' cfg) w
     = Run claude codex ctx ReadFile cfg w).
Proof.
  split; [| split].
  - intros Hm Hp. unfold Run, runFull. now rewrite Hm, Hp.
  - intros Hm Hp e He HN Hctx. unfold Run, runFull. rewrite Hm.
    apply String.eqb_neq in Hp. rewrite Hp. simpl.
    unfold runTaskPhase.
    destruct (Z.to_nat (MaxIterations cfg)) as [|n] eqn:Hn; [lia |].
    unfold bind, wrapErr, logSetPhase, logPrint. cbn [taskLoop].
    unfold bind, ctxDone, logPrint. simpl. rewrite Hctx.
    unfold buildTaskPrompt. rewrite He. simpl. now split.
  - intros [Hm | Hm] ReadFile' planFile'; unfold Run; simpl; now rewrite Hm.
Qed.

Lemma plan_file_requirements_witness :
  let w0 : World nat nat := initWorld 0 0 in
  let claude := mockExecutor [] in
  let codex := mockExecutor [ok "" ""] in
  let fs := planFS "plan.md" "# Plan" in
  Run claude codex liveCtx fs (mkConfig "" ModeFull 0 false false) w0
  = (inr "plan file required for full mode", w0) /\
  (let run := Run claude codex liveCtx testFS
                (mkConfig "/nonexistent/file.md" ModeFull 10 false false) w0 in
   fst run = inr ("task phase: read plan file: "
                    ++ "open /nonexistent/file.md: no such file or directory") /\
   calls (snd run) = calls w0) /\
  Run claude codex liveCtx (fun _ => inr "unreadable")
      (setPlanFile "" (mkConfig "plan.md" ModeCodexOnly 0 false false)) w0
  = Run claude codex liveCtx fs (mkConfig "plan.md" ModeCodexOnly 0 false false) w0.
Proof.
  intros w0 claude codex fs. split; [| split].
  - now apply (proj1 (plan_file_requirements claude codex liveCtx testFS
                        (mkConfig "" ModeFull 0 false false) w0)).
  - intros run.
    apply (proj1 (proj2 (plan_file_requirements claude codex liveCtx testFS
                           (mkConfig "/nonexistent/file.md" ModeFull 10 false false) w0)));
      try reflexivity.
    + discriminate.
    + vm_compute. discriminate.
  - apply (proj2 (proj2 (plan_file_requirements claude codex liveCtx testFS
                           (mkConfig "plan.md" ModeCodexOnly 0 false false) w0))).
    now right.
Defined.

(** ** The pipelines *)

Section PipelineFacts.

Context {CS XS : Type}.
Variable claude : Executor CS.
Variable codex : Executor XS.
Variable ctx : Context.
Variable ReadFile : FileSystem.
Variable cfg : Config.

Lemma analysisTail_FollowUp msgFollow prefix msgDone (w w' : World CS XS) res :
  analysisTail claude codex ctx msgFollow prefix msgDone w = (res, w') ->
  exists cx post,
    calls w' = (calls w ++ cx :: post)%list /\
    isCodex cx /\ prompt cx = buildCodexPrompt /\ FollowUp ctx cx post res.
Proof.
  unfold analysisTail, bind at 1, wrapErr at 1.
  pose proof (runCodexPhase_call codex w) as [Hres Hc1].
  destruct (runCodexPhase codex w) as [r1 w1] eqn:H1. simpl in Hres, Hc1.
  set (r := fst (codex (codexSt w) buildCodexPrompt)) in *.
  set (cx := mkCall Codex buildCodexPrompt r) in *.
  intros H. exists cx. unfold FollowUp. change (result cx) with r.
  destruct (Error r) as [e|].
  - subst r1. injection H as <- <-. exists []. now repeat split.
  - subst r1. destruct (Output r =? "") eqn:Hout.
    + simpl in H. unfold bind, logPrint, ret in H. simpl in H.
      injection H as <- <-. exists []. simpl. now repeat split.
    + simpl in H. unfold bind at 1 2 3, logSetPhase, logPrint, wrapErr in H.
      match type of H with context [runClaudeReview claude ctx ?p ?w2] =>
        pose proof (runClaudeReview_ReviewRun claude ctx p w2) as [Hc2 Hrun];
        destruct (runClaudeReview claude ctx p w2) as [r2 w3] eqn:H2
      end.
      simpl in Hc2, Hrun.
      match type of Hrun with ReviewRun _ _ _ ?cs _ =>
        generalize dependent cs; intros post Hc2 Hrun
      end.
      exists post. destruct r2 as [[] | e2].
      * unfold bind, logPrint, ret in H. injection H as <- <-. simpl.
        rewrite Hc2, Hc1, <- app_assoc. repeat split. now exists (inl tt).
      * injection H as <- <-.
        rewrite Hc2, Hc1, <- app_assoc. repeat split. exists (inr e2).
        split; [exact Hrun | discriminate].
Qed.

Lemma wrapped_review prefix p (w : World CS XS) :
  exists cs,
    Forall isClaude cs /\
    calls (snd (wrapErr prefix (runClaudeReview claude ctx p) w)) = (calls w ++ cs)%list.
Proof.
  destruct (runClaudeReview_ReviewRun claude ctx p w) as [Hc Hrun].
  apply ReviewRun_calls in Hrun as [_ Hall].
  exists (newCalls w (snd (runClaudeReview claude ctx p w))).
  split; [exact Hall |]. unfold wrapErr.
  destruct (runClaudeReview claude ctx p w) as [[[] | e] w1]; exact Hc.
Qed.

Lemma wrapped_task prefix (w : World CS XS) :
  exists cs,
    Forall isClaude cs /\
    calls (snd (wrapErr prefix (runTaskPhase claude ctx ReadFile cfg) w))
    = (calls w ++ cs)%list.
Proof.
  destruct (runTaskPhase_TaskRun claude ctx ReadFile cfg w) as [Hc Hrun].
  apply TaskRun_calls in Hrun as [_ Hall].
  exists (newCalls w (snd (runTaskPhase claude ctx ReadFile cfg w))).
  split; [exact Hall |]. unfold wrapErr.
  destruct (runTaskPhase claude ctx ReadFile cfg w) as [[[] | e] w1]; exact Hc.
Qed.

Lemma analysisTail_shape msgFollow prefix msgDone pre (w0 w w' : World CS XS) res :
  Forall isClaude pre ->
  calls w = (calls w0 ++ pre)%list ->
  analysisTail claude codex ctx msgFollow prefix msgDone w = (res, w') ->
  PipelineShape ctx w0 w' res.
Proof.
  intros Hpre Hw H.
  apply analysisTail_FollowUp in H as [cx [post [Hc [Hcx [Hp Hf]]]]].
  exists pre. split; [exact Hpre |]. right. exists cx, post.
  rewrite Hc, Hw, <- app_assoc. now repeat split.
Qed.

Lemma runCodexOnly_shape (w w' : World CS XS) res :
  runCodexOnly claude codex ctx w = (res, w') -> PipelineShape ctx w w' res.
Proof.
  intros H. eapply (analysisTail_shape _ _ _ []); [constructor | | exact H].
  simpl. now rewrite app_nil_r.
Qed.

Lemma runReviewOnly_shape (w w' : World CS XS) res :
  runReviewOnly claude codex ctx w = (res, w') -> PipelineShape ctx w w' res.
Proof.
  unfold runReviewOnly, bind at 1 2 3, logSetPhase at 1, logPrint at 1.
  match goal with |- context [wrapErr ?pf (runClaudeReview claude ctx ?p) ?w1] =>
    destruct (wrapped_review pf p w1) as [cs [Hall Hc]];
    destruct (wrapErr pf (runClaudeReview claude ctx p) w1) as [[[] | e] w2]
  end; simpl in Hc; intros H.
  - eapply (analysisTail_shape _ _ _ cs); [exact Hall | | exact H]. exact Hc.
  - injection H as <- <-. exists cs. split; [exact Hall | now left].
Qed.

Lemma runFull_shape (w w' : World CS XS) res :
  runFull claude codex ctx ReadFile cfg w = (res, w') -> PipelineShape ctx w w' res.
Proof.
  unfold runFull. destruct (PlanFile cfg =? "").
  { intros H. injection H as <- <-. exists []. split; [constructor |].
    left. now rewrite app_nil_r. }
  unfold bind at 1 2 3, logSetPhase at 1, logPrint at 1.
  match goal with |- context [wrapErr ?pf (runTaskPhase claude ctx ReadFile cfg) ?w1] =>
    destruct (wrapped_task pf w1) as [cs1 [Hall1 Hc1]];
    destruct (wrapErr pf (runTaskPhase claude ctx ReadFile cfg) w1) as [[[] | e] w2]
  end; simpl in Hc1.
  2: { intros H. injection H as <- <-. exists cs1. split; [exact Hall1 | now left]. }
  unfold bind at 1 2 3, logSetPhase at 1, logPrint at 1.
  match goal with |- context [wrapErr ?pf (runClaudeReview claude ctx ?p) ?w3] =>
    destruct (wrapped_review pf p w3) as [cs2 [Hall2 Hc2]];
    destruct (wrapErr pf (runClaudeReview claude ctx p) w3) as [[[] | e] w4]
  end; simpl in Hc2; intros H.
  - eapply (analysisTail_shape _ _ _ (cs1 ++ cs2)); [| | exact H].
    + apply Forall_app. now split.
    + simpl. rewrite Hc2, Hc1, <- app_assoc. reflexivity.
  - injection H as <- <-. exists (cs1 ++ cs2)%list.
    split; [apply Forall_app; now split |]. left.
    rewrite Hc2, Hc1, <- app_assoc. reflexivity.
Qed.

Lemma Run_shape (w w' : World CS XS) res :
  Run claude codex ctx ReadFile cfg w = (res, w') -> PipelineShape ctx w w' res.
Proof.
  unfold Run.
  destruct (Mode cfg =? ModeFull); [apply runFull_shape |].
  destruct (Mode cfg =? ModeReview); [apply runReviewOnly_shape |].
  destruct (Mode cfg =? ModeCodexOnly); [apply runCodexOnly_shape |].
  intros H. injection H as <- <-. exists []. split; [constructor |].
  left. now rewrite app_nil_r.
Qed.

End PipelineFacts.

Lemma ReviewRun_first_done ctx n p c rest res :
  ReviewRun ctx n p (c :: rest) res ->
  Error (result c) = None -> Signal (result c) = SignalReviewDone ->
  rest = [] /\ res = inl tt.
Proof.
  intros H He Hs. inversion H; subst; simpl in *; try congruence.
  - rewrite Hs in *. discriminate.
  - now split.
Qed.

Lemma FollowUp_calls ctx cx post res :
  FollowUp ctx cx post res ->
  Forall isClaude post /\ List.length post <= Z.to_nat maxReviewIterations.
Proof.
  unfold FollowUp. destruct (Error (result cx)).
  - intros [-> _]. split; [constructor | simpl; lia].
  - destruct (Output (result cx) =? "").
    + intros [-> _]. split; [constructor | simpl; lia].
    + intros [res' [Hrun _]]. apply ReviewRun_calls in Hrun. tauto.
Qed.

(** C2 (as amended). In every mode, for the Analysis (codex) result of a
    run, when it has no error: the calls before it are Claude's; with an
    empty output no Review invocation follows it and the run succeeds at that
    point; with a non-empty output exactly one follow-up Review phase follows,
    which makes at most 10 invocations (at least one while the context is not
    cancelled, exactly one when its first result carries REVIEW_DONE without
    error), the prompt of the first one being the second-review prompt, which
    contains the findings text verbatim, and the prompt of every later one
    being the continue prompt of the previous output. *)
Theorem analysis_follow_up {CS XS : Type} (claude : Executor CS)
    (codex : Executor XS) (ctx : Context) (ReadFile : FileSystem) (cfg : Config)
    (c0 : CS) (x0 : XS) :
  let run := Run claude codex ctx ReadFile cfg (initWorld c0 x0) in
  forall cx, In cx (calls (snd run)) -> isCodex cx -> Error (result cx) = None ->
  exists pre post,
    calls (snd run) = (pre ++ cx :: post)%list /\
    Forall isClaude pre /\ Forall isClaude post /\
    (Z.of_nat (List.length post) <= maxReviewIterations)%Z /\
    if Output (result cx) =? ""
    then post = [] /\ fst run = inl tt
    else
      (ctxLive ctx -> post <> []) /\
      (forall c rest, post = c :: rest ->
         prompt c = buildSecondReviewPrompt (Output (result cx)) /\
         Occurs (Output (result cx)) (prompt c) /\
         (Error (result c) = None -> Signal (result c) = SignalReviewDone ->
          rest = [] /\ fst run = inl tt)) /\
      (forall l1 c1 c2 l2, post = (l1 ++ c1 :: c2 :: l2)%list ->
         prompt c2 = buildContinuePrompt (Output (result c1))).
Proof.
  intros run cx Hin Hcx Herr.
  destruct (Run_shape claude codex ctx ReadFile cfg (initWorld c0 x0)
              (snd run) (fst run)) as [pre [Hpre Hshape]].
  { subst run. now destruct (Run claude codex ctx ReadFile cfg (initWorld c0 x0)). }
  assert (Hno : forall l, Forall isClaude l -> ~ In cx l).
  { intros l Hl Hi. rewrite Forall_forall in Hl. specialize (Hl cx Hi).
    unfold isClaude, isCodex in *. congruence. }
  simpl in Hshape. destruct Hshape as [Hc | [cx' [post [Hc [_ [_ Hf]]]]]].
  { rewrite Hc in Hin. now apply Hno in Hin. }
  destruct (FollowUp_calls _ _ _ _ Hf) as [Hpost Hlen].
  assert (cx' = cx) as ->.
  { rewrite Hc in Hin. apply in_app_or in Hin as [Hi | [He | Hi]];
      [now apply Hno in Hi | exact He | now apply Hno in Hi]. }
  exists pre, post. split; [exact Hc |]. split; [exact Hpre |].
  split; [exact Hpost |]. split.
  { change maxReviewIterations with (Z.of_nat (Z.to_nat maxReviewIterations)).
    now apply Nat2Z.inj_le. }
  unfold FollowUp in Hf. rewrite Herr in Hf.
  destruct (Output (result cx) =? ""); [exact Hf |].
  destruct Hf as [res' [Hrun Hres]]. split; [| split].
  - intros Hctx Hnil.
    destruct (ReviewRun_starts ctx _ _ _ _ Hctx Hrun) as [c [rest [Heq _]]].
    congruence.
  - intros c rest ->.
    rewrite (ReviewRun_first _ _ _ _ _ _ Hrun). split; [reflexivity |].
    split; [apply buildSecondReviewPrompt_findings |].
    intros He Hs.
    destruct (ReviewRun_first_done _ _ _ _ _ _ Hrun He Hs) as [-> Hok].
    split; [reflexivity | now apply Hres].
  - intros l1 c1 c2 l2 Heq.
    exact (proj2 (ReviewRun_chain _ _ _ _ _ Hrun l1 c1 c2 l2 Heq)).
Qed.

Lemma analysis_follow_up_witness :
  let claude := mockExecutor [ok "task done" SignalCompleted;
                              ok "review done" SignalReviewDone;
                              ok "second review done" SignalReviewDone] in
  let codex := mockExecutor [ok "found issue in foo.go" ""] in
  let cfg := mkConfig "plan.md" ModeFull 10 false false in
  let run := Run claude codex liveCtx (planFS "plan.md" "# Plan") cfg (initWorld 0 0) in
  let cx := mkCall Codex buildCodexPrompt (ok "found issue in foo.go" "") in
  exists pre post,
    calls (snd run) = (pre ++ cx :: post)%list /\
    Forall isClaude pre /\ Forall isClaude post /\
    (Z.of_nat (List.length post) <= maxReviewIterations)%Z.
Proof.
  intros claude codex cfg run cx.
  destruct (analysis_follow_up claude codex liveCtx (planFS "plan.md" "# Plan") cfg 0 0 cx)
    as [pre [post [Hc [Hpre [Hpost [Hlen _]]]]]].
  - vm_compute. right. right. left. reflexivity.
  - reflexivity.
  - reflexivity.
  - exists pre, post. repeat split; assumption.
Defined.

(** C2, the claim as stated fails: in codex-only mode, after findings, a
    follow-up review whose first answer carries no signal is asked again; the
    run succeeds after two follow-up Review invocations, and the prompt of the
    second one does not contain the findings. *)
Lemma follow_up_review_iterates :
  let findings := ok "found issue" "" in
  let r1 := ok "still reviewing..." "" in
  let r2 := ok "review done" SignalReviewDone in
  let cfg := mkConfig "" ModeCodexOnly 0 false false in
  let run := Run (mockExecutor [r1; r2]) (mockExecutor [findings]) liveCtx
                 (planFS "plan.md" "# Plan") cfg (initWorld 0 0) in
  fst run = inl tt /\
  Error findings = None /\ Output findings <> "" /\
  calls (snd run)
  = [ mkCall Codex buildCodexPrompt findings;
      mkCall Claude (buildSecondReviewPrompt "found issue") r1;
      mkCall Claude (buildContinuePrompt "still reviewing...") r2 ] /\
  List.length (filter (fun c => match agent c with Claude => true | Codex => false end)
                      (calls (snd run))) <> 1 /\
  Contains (buildContinuePrompt "still reviewing...") (Output findings) = false.
Proof.
  intros findings r1 r2 cfg run. repeat split.
  - discriminate.
  - vm_compute. discriminate.
Qed.

(** ** The line reader *)

Section ReadLinesFacts.

Context {H : Type}.
Variable ctx : Context.
Variable handler : H -> string -> H.

Lemma cutAt_breakLF (s : string) :
  match breakLF s with
  | Some (seg, rest) =>
      cutAt LF s = Some (seg ++ String LF "", rest) /\
      HasByte LF seg = false /\
      String.length rest < String.length s
  | None => cutAt LF s = None /\ HasByte LF s = false
  end.
Proof.
  induction s as [|c s IH]; cbn [breakLF cutAt HasByte String.length];
    [now split |].
  destruct (Ascii.eqb c LF) eqn:Hc.
  - apply Ascii.eqb_eq in Hc. subst c. repeat split. lia.
  - destruct (breakLF s) as [[seg rest]|].
    + destruct IH as [-> [Hseg Hlen]]. cbn [append HasByte String.length].
      rewrite Ascii.eqb_sym, Hc. repeat split; [exact Hseg | lia].
    + destruct IH as [-> Hs]. rewrite Ascii.eqb_sym, Hc. now split.
Qed.

Lemma HasByte_crlf (c : ascii) :
  HasByte c crlf = Ascii.eqb c CR || Ascii.eqb c LF.
Proof. simpl. now rewrite orb_false_r. Qed.

(** Without a trailing CR and without LF nothing is trimmed. *)
Lemma TrimRight_clean (s : string) :
  HasByte LF s = false -> endsWithCR s = false -> TrimRight s crlf = s.
Proof.
  induction s as [|c s IH]; [reflexivity |].
  intros Hlf Hcr. cbn [HasByte] in Hlf. apply orb_false_iff in Hlf as [Hc Hs].
  cbn [TrimRight]. destruct s as [|d s].
  - cbn [TrimRight]. rewrite HasByte_crlf. simpl in Hcr.
    now rewrite Hcr, Ascii.eqb_sym, Hc.
  - rewrite IH; [reflexivity | exact Hs | exact Hcr].
Qed.

(** Trimming a line whose content, less one CR, has no further trailing CR
    strips exactly its terminator. *)
Lemma TrimRight_terminator (seg : string) :
  HasByte LF seg = false ->
  endsWithCR (stripOneCR seg) = false ->
  TrimRight (seg ++ String LF "") crlf = stripOneCR seg.
Proof.
  induction seg as [|c seg IH]; [reflexivity |].
  intros Hlf Hcr. cbn [HasByte] in Hlf. apply orb_false_iff in Hlf as [Hc Hs].
  rewrite Ascii.eqb_sym in Hc.
  cbn [append TrimRight]. destruct seg as [|d seg].
  - change (TrimRight (String LF "") crlf) with "".
    rewrite HasByte_crlf, Hc, orb_false_r. cbn [stripOneCR].
    now destruct (Ascii.eqb c CR).
  - change (stripOneCR (String c (String d seg)))
      with (String c (stripOneCR (String d seg))) in *.
    destruct (stripOneCR (String d seg)) as [|x t] eqn:Hstrip.
    + rewrite (IH Hs eq_refl). rewrite HasByte_crlf.
      simpl in Hcr. now rewrite Hcr, Hc.
    + rewrite (IH Hs Hcr). reflexivity.
Qed.

(** Enough fuel: the loop returns, and more fuel changes nothing. *)
Lemma readLinesLoop_total (fuel : nat) :
  forall k r h,
    String.length (pending r) < fuel ->
    exists res, readLinesLoop ctx handler fuel k r h = Some res.
Proof.
  induction fuel as [|fuel IH]; intros k r h Hlen; [lia |].
  cbn [readLinesLoop]. destruct (ctx k); [eauto |].
  unfold ReadString. pose proof (cutAt_breakLF (pending r)) as Hcut.
  destruct (breakLF (pending r)) as [[seg rest]|].
  - destruct Hcut as [-> [_ Hrest]]. apply IH. simpl. lia.
  - destruct Hcut as [-> _]. destruct (ending r); eauto.
Qed.

Lemma readLines_returns (r : Stream) (h : H) :
  exists res, readLines ctx handler r h = Some res.
Proof. apply readLinesLoop_total. lia. Qed.

Lemma readLinesLoop_fuel (fuel : nat) :
  forall fuel' k r h res,
    readLinesLoop ctx handler fuel k r h = Some res ->
    fuel <= fuel' ->
    readLinesLoop ctx handler fuel' k r h = Some res.
Proof.
  induction fuel as [|fuel IH]; intros fuel' k r h res Hrun Hle; [discriminate |].
  destruct fuel' as [|fuel']; [lia |].
  cbn [readLinesLoop] in *. destruct (ctx k); [exact Hrun |].
  destruct (ReadString LF r) as [[line err] r'].
  destruct err as [[|msg]|]; try exact Hrun.
  apply IH; [exact Hrun | lia].
Qed.

(** On a stream none of whose lines ends in a further CR, and under a context
    that is not cancelled, the handler receives the lines of the stream, each
    once and in order, whatever their lengths. *)
Lemma readLinesLoop_lines (fuel : nat) :
  ctxLive ctx ->
  forall k s e h,
    String.length s < fuel ->
    Forall (fun l => endsWithCR l = false) (specLinesFuel fuel s) ->
    readLinesLoop ctx handler fuel k (mkStream s e) h
    = Some (endError e, fold_left handler (specLinesFuel fuel s) h).
Proof.
  intros Hctx. induction fuel as [|fuel IH]; intros k s e h Hlen Hclean; [lia |].
  cbn [readLinesLoop specLinesFuel] in *. rewrite Hctx.
  unfold ReadString. cbn [pending ending].
  pose proof (cutAt_breakLF s) as Hcut.
  destruct (breakLF s) as [[seg rest]|].
  - destruct Hcut as [-> [Hseg Hrest]].
    inversion Hclean as [|? ? Hline Hrest']; subst.
    rewrite length_app. cbn [String.length].
    replace (0 <? String.length seg + 1)%nat with true
      by (symmetry; apply Nat.ltb_lt; lia).
    rewrite (TrimRight_terminator seg Hseg Hline).
    rewrite IH; [reflexivity | lia | exact Hrest'].
  - destruct Hcut as [-> Hs].
    destruct (0 <? String.length s)%nat eqn:Hnonempty.
    + inversion Hclean as [|? ? Hline _]; subst.
      rewrite (TrimRight_clean s Hs Hline). now destruct e.
    + now destruct e.
Qed.

Lemma readLines_lines (s : string) (h : H) :
  ctxLive ctx ->
  Forall (fun l => endsWithCR l = false) (specLines s) ->
  readLines ctx handler (mkStream s io_EOF) h
  = Some (None, fold_left handler (specLines s) h).
Proof.
  intros Hctx Hclean. unfold readLines, specLines in *.
  cbn [pending].
  rewrite (readLinesLoop_lines _ Hctx 0 s io_EOF h); [reflexivity | lia | exact Hclean].
Qed.

End ReadLinesFacts.

(** C3. The claim holds for every line whose content does not itself end in
    a carriage return ([readLines_lines], for lines of any length); it fails on
    a line with a further CR before its terminator: of the stream
    ["a\r\r\n"], whose only line has the content ["a\r"] once the terminator
    CR LF is stripped, the handler is given ["a"]: [strings.TrimRight] with the
    cutset ["\r\n"] removes every trailing CR and LF, not one terminator. *)
Theorem readLines_trims_content_CR :
  let input := "a" ++ cr ++ cr ++ nl in
  readLines liveCtx collect (mkStream input io_EOF) [] = Some (None, ["a"]) /\
  specLines input = ["a" ++ cr] /\
  ["a"] <> ["a" ++ cr].
Proof. repeat split. discriminate. Qed.

(** ** The progress log *)

Import Progress.

Lemma drop_app_le (n : nat) (a b : string) :
  n <= String.length a -> drop n (a ++ b) = drop n a ++ b.
Proof.
  revert a; induction n as [|n IH]; intros a Hle; [reflexivity |].
  destruct a as [|c a]; simpl in *; [lia |]. apply IH. lia.
Qed.

(** The check of the last 256 bytes finds exactly the files with the marker
    in their tail. *)
Lemma isProgressCompleted_markerInTail (content : string) :
  isProgressCompleted (Some content) = true <-> markerInTail content.
Proof.
  unfold isProgressCompleted, markerInTail.
  rewrite Contains_spec. unfold Occurs.
  set (k := String.length content - 256). split.
  - intros [pre [post Hd]].
    exists (take k content ++ pre), post. split.
    + rewrite append_assoc, <- Hd. symmetry. apply take_drop.
    + assert (Hlen : String.length (drop k content)
                     = String.length pre + String.length (completionMarker ++ post))
        by (now rewrite Hd, length_app).
      rewrite length_drop in Hlen. subst k. lia.
  - intros [pre [post [Heq Hlen]]].
    exists (drop k pre), post. rewrite Heq at 1. apply drop_app_le.
    assert (Hl : String.length content
                 = String.length pre + String.length (completionMarker ++ post))
      by (now rewrite Heq at 1; rewrite length_app).
    subst k. lia.
Qed.

Lemma lastByte_app (a b : string) :
  b <> "" -> lastByte (a ++ b) = lastByte b.
Proof.
  intros Hb. induction a as [|c a IH]; [reflexivity |].
  cbn [append lastByte]. destruct (a ++ b) eqn:Hab; [| exact IH].
  destruct a; [simpl in Hab; contradiction | discriminate].
Qed.

(** A footer shorter than 256 bytes at the end of the file puts the marker
    within the last 256 bytes. *)
Lemma endsWithFooter_markerInTail (content timestamp elapsed : string) :
  endsWithFooter content timestamp elapsed ->
  String.length (completionFooter timestamp elapsed) < 256 ->
  markerInTail content.
Proof.
  intros [_ [body [eol [Heq [_ Heol]]]]] Hlen.
  exists body, ((" " ++ timestamp ++ " (" ++ elapsed ++ ")") ++ eol). split.
  - rewrite Heq. unfold completionFooter. now rewrite !append_assoc.
  - rewrite <- append_assoc. rewrite length_app.
    change (completionMarker ++ " " ++ timestamp ++ " (" ++ elapsed ++ ")")
      with (completionFooter timestamp elapsed).
    destruct Heol as [-> | ->];
      [change (String.length "") with 0 | change (String.length nl) with 1]; lia.
Qed.

(** A file that ends with a footer ends with its closing parenthesis or with
    the line feed after it. *)
Lemma endsWithFooter_lastByte (content timestamp elapsed : string) :
  endsWithFooter content timestamp elapsed ->
  lastByte content = Some ")"%char \/ lastByte content = Some LF.
Proof.
  intros [_ [body [eol [Heq [_ Heol]]]]]. rewrite Heq. unfold completionFooter.
  replace (body ++ (completionMarker ++ " " ++ timestamp ++ " (" ++ elapsed ++ ")") ++ eol)
    with ((body ++ completionMarker ++ " " ++ timestamp ++ " (" ++ elapsed)
            ++ (")" ++ eol))
    by (now rewrite !append_assoc).
  rewrite lastByte_app by discriminate.
  destruct Heol as [-> | ->]; [now left | now right].
Qed.

(** C4. When the progress log is opened: on a file with the ["Completed:"]
    marker within its last 256 bytes, as every file has that ends with a
    completion footer of fewer than 256 bytes, the fresh header is written
    over a file truncated to zero length, so the header is all it holds; on
    a non-empty file without the marker in its last 256 bytes the restart
    separator is appended after all the prior bytes; on an empty or missing
    file the fresh header is written and no restart separator. *)
Theorem NewLogger_on_open (header restartSeparator : string) (file : option string) :
  (forall content, file = Some content -> markerInTail content ->
     NewLogger header restartSeparator file = (header, false)) /\
  (forall content timestamp elapsed, file = Some content ->
     endsWithFooter content timestamp elapsed ->
     String.length (completionFooter timestamp elapsed) < 256 ->
     NewLogger header restartSeparator file = (header, false)) /\
  (forall content, file = Some content -> content <> "" ->
     ~ markerInTail content ->
     NewLogger header restartSeparator file = (content ++ restartSeparator, true)) /\
  (file = None \/ file = Some "" ->
     NewLogger header restartSeparator file = (header, false)).
Proof.
  assert (Hmark : forall content, markerInTail content ->
            NewLogger header restartSeparator (Some content) = (header, false)).
  { intros content Hm. unfold NewLogger.
    apply isProgressCompleted_markerInTail in Hm as Hdone.
    rewrite Hdone. destruct content; [discriminate Hdone | reflexivity]. }
  split; [| split; [| split]].
  - intros content -> Hm. now apply Hmark.
  - intros content timestamp elapsed -> Hfoot Hlen.
    apply Hmark. now apply (endsWithFooter_markerInTail _ timestamp elapsed).
  - intros content -> Hne Hm. unfold NewLogger.
    destruct content as [|c content]; [contradiction |]. cbn [String.length Nat.eqb].
    destruct (isProgressCompleted (Some (String c content))) eqn:Hdone;
      [| reflexivity].
    now apply isProgressCompleted_markerInTail in Hdone.
  - intros [-> | ->]; reflexivity.
Qed.

Lemma NewLogger_on_open_witness :
  let header := "# Ralphex Progress Log" ++ nl in
  let sep := nl ++ "--- restarted ---" ++ nl in
  let finished := header ++ "task done" ++ nl ++ "Completed: 2026-02-18 10:00:00 (5m0s)" ++ nl in
  let crashed := header ++ "task iteration 1/10" ++ nl in
  NewLogger header sep (Some finished) = (header, false) /\
  NewLogger header sep (Some crashed) = (crashed ++ sep, true) /\
  NewLogger header sep None = (header, false) /\
  NewLogger header sep (Some "") = (header, false).
Proof.
  intros header sep finished crashed. repeat apply conj.
  - apply (proj1 (proj2 (NewLogger_on_open header sep (Some finished)))
             finished "2026-02-18 10:00:00" "5m0s" eq_refl).
    + split; [reflexivity |].
      exists (header ++ "task done" ++ nl), nl. split; [reflexivity |].
      split; [right; now exists ("# Ralphex Progress Log" ++ nl ++ "task done")
             | now right].
    + simpl. lia.
  - apply (proj1 (proj2 (proj2 (NewLogger_on_open header sep (Some crashed))))
             crashed eq_refl).
    + discriminate.
    + intros Hm. apply isProgressCompleted_markerInTail in Hm. discriminate Hm.
  - apply (proj2 (proj2 (proj2 (NewLogger_on_open header sep None)))). now left.
  - apply (proj2 (proj2 (proj2 (NewLogger_on_open header sep (Some ""))))). now right.
Defined.

(** The marker need not belong to a footer.  A run that crashed while its
    last line of output held the text ["Completed:"] left a non-empty file
    without a completion footer; when the log is opened on it the file is
    truncated and gets the fresh header: no restart separator is written and
    the prior bytes are lost. *)
Lemma crashed_log_with_marker_truncated :
  let header := "# Ralphex Progress Log" ++ nl in
  let sep := nl ++ "--- restarted ---" ++ nl in
  let crashed := header ++ "Step 1 Completed: wrote parser, now running tests" in
  crashed <> "" /\
  ~ bearsCompletionFooter crashed /\
  NewLogger header sep (Some crashed) = (header, false) /\
  NewLogger header sep (Some crashed) <> (crashed ++ sep, true).
Proof.
  intros header sep crashed. split; [discriminate |]. split; [| split].
  - intros [timestamp [elapsed Hfoot]].
    apply endsWithFooter_lastByte in Hfoot as [Hl | Hl]; discriminate Hl.
  - reflexivity.
  - discriminate.
Qed.

(** ** The repository's tests, replayed on the embedding *)

Example TestRunner_Run_UnknownMode :
  fst (Run (mockExecutor []) (mockExecutor []) liveCtx testFS
           (mkConfig "" "invalid" 0 false false) testWorld)
  = inr "unknown mode: invalid".
Proof. reflexivity. Qed.

Example TestRunner_RunFull_Success :
  let run := Run (mockExecutor [ok "task done" SignalCompleted;
                                ok "review done" SignalReviewDone;
                                ok "second review done" SignalReviewDone])
                 (mockExecutor [ok "found issue in foo.go" ""])
                 liveCtx testFS (testFull 10) testWorld in
  fst run = inl tt /\ callsOf Claude (snd run) = 3 /\ callsOf Codex (snd run) = 1.
Proof. now vm_compute. Qed.

Example TestRunner_RunFull_NoCodexFindings :
  let run := Run (mockExecutor [ok "task done" SignalCompleted;
                                ok "review done" SignalReviewDone])
                 (mockExecutor [ok "" ""])
                 liveCtx testFS (testFull 10) testWorld in
  fst run = inl tt /\ callsOf Claude (snd run) = 2.
Proof. now vm_compute. Qed.

Example TestRunner_RunCodexOnly_NoFindings :
  let run := Run (mockExecutor []) (mockExecutor [ok "" ""])
                 liveCtx testFS (mkConfig "" ModeCodexOnly 0 false false) testWorld in
  fst run = inl tt /\ callsOf Claude (snd run) = 0 /\ callsOf Codex (snd run) = 1.
Proof. now vm_compute. Qed.

Example TestRunner_TaskPhase_ContextCanceled :
  let run := Run (mockExecutor []) (mockExecutor []) canceledCtx testFS (testFull 10) testWorld in
  fst run = inr "task phase: task phase: context canceled" /\ calls (snd run) = [].
Proof. now vm_compute. Qed.

Example TestRunner_ClaudeReview_MaxIterations :
  fst (Run (mockExecutor stillReviewing) (mockExecutor []) liveCtx testFS
           (mkConfig "" ModeReview 0 false false) testWorld)
  = inr "first review: max review iterations (10) reached".
Proof. now vm_compute. Qed.

Example TestRunner_CodexPhase_Error :
  fst (Run (mockExecutor [ok "review done" SignalReviewDone])
           (mockExecutor [mkResult "" "" (Some "codex error")]) liveCtx testFS
           (mkConfig "" ModeReview 0 false false) testWorld)
  = inr "codex phase: codex execution: codex error".
Proof. now vm_compute. Qed.

Example TestBuildTaskPrompt_file_not_found :
  buildTaskPrompt testFS "/nonexistent/file.md" 1
  = inr "read plan file: open /nonexistent/file.md: no such file or directory".
Proof. reflexivity. Qed.

Example TestBuildContinuePrompt_long_output :
  countByte "z" (buildContinuePrompt (replicate 1000 "z")) = 500.
Proof. now vm_compute. Qed.

(* ================================================================== *)
(** * Further properties of the code *)

(** ** The phases: errors, success and prompts *)

Section MoreRunFacts.

Variable ctx : Context.
Variable ReadFile : FileSystem.
Variable cfg : Config.

Lemma TaskRun_error_last n i lo cs res :
  TaskRun ctx ReadFile cfg n i lo cs res ->
  forall c e, In c cs -> Error (result c) = Some e ->
  res = inr ("claude execution: " ++ e) /\ (exists l, cs = l ++ [c])%list.
Proof.
  induction 1 as [ i lo | n i lo k e0 Hk | n i lo e0 Hp | n i lo p r e0 Hp He
                 | n i lo p r Hp He Hs | n i lo p r Hp He Hs
                 | n i lo p r cs res Hp He Hs Hrun IH ];
    intros c e Hin Hce; simpl in Hin; try contradiction.
  - destruct Hin as [<- | []]. simpl in Hce. rewrite He in Hce.
    injection Hce as <-. split; [reflexivity | now exists []].
  - destruct Hin as [<- | []]. simpl in Hce. congruence.
  - destruct Hin as [<- | []]. simpl in Hce. congruence.
  - destruct Hin as [<- | Hin].
    + simpl in Hce. congruence.
    + destruct (IH c e Hin Hce) as [Hres Hlast].
      split; [exact Hres | now apply last_cons].
Qed.

Lemma ReviewRun_error_last n p cs res :
  ReviewRun ctx n p cs res ->
  forall c e, In c cs -> Error (result c) = Some e ->
  res = inr ("claude execution: " ++ e) /\ (exists l, cs = l ++ [c])%list.
Proof.
  induction 1 as [ p | n p k e0 Hk | n p r e0 He | n p r He Hs | n p r He Hs
                 | n p r cs res He Hf Hd Hrun IH ];
    intros c e Hin Hce; simpl in Hin; try contradiction.
  - destruct Hin as [<- | []]. simpl in Hce. rewrite He in Hce.
    injection Hce as <-. split; [reflexivity | now exists []].
  - destruct Hin as [<- | []]. simpl in Hce. congruence.
  - destruct Hin as [<- | []]. simpl in Hce. congruence.
  - destruct Hin as [<- | Hin].
    + simpl in Hce. congruence.
    + destruct (IH c e Hin Hce) as [Hres Hlast].
      split; [exact Hres | now apply last_cons].
Qed.

Lemma TaskRun_success n i lo cs :
  TaskRun ctx ReadFile cfg n i lo cs (inl tt) ->
  exists l c, (cs = l ++ [c])%list /\
              Error (result c) = None /\ Signal (result c) = SignalCompleted /\
              Forall taskContinues l.
Proof.
  intros H. remember (inl tt) as res eqn:Hres.
  induction H as [ i lo | n i lo k e0 Hk | n i lo e0 Hp | n i lo p r e0 Hp He
                 | n i lo p r Hp He Hs | n i lo p r Hp He Hs
                 | n i lo p r cs res Hp He Hs Hrun IH ]; try discriminate.
  - exists [], (mkCall Claude p r). now repeat split.
  - destruct (IH Hres) as [l [c [-> [Hce [Hcs Hl]]]]].
    exists (mkCall Claude p r :: l), c. repeat split; try assumption.
    constructor; [now split | exact Hl].
Qed.

Lemma TaskRun_head_prompt n i lo c cs res :
  TaskRun ctx ReadFile cfg n i lo (c :: cs) res ->
  taskPrompt ReadFile cfg i lo = inl (prompt c).
Proof. intros H. inversion H; subst; assumption. Qed.

Lemma taskPrompt_later i lo :
  (1 <= i)%Z ->
  taskPrompt ReadFile cfg (i + 1) lo = inl (buildContinuePrompt lo).
Proof.
  intros Hi. unfold taskPrompt.
  destruct (Z.eqb_spec (i + 1) 1); [lia | reflexivity].
Qed.

Lemma TaskRun_chain n i lo cs res :
  (1 <= i)%Z ->
  TaskRun ctx ReadFile cfg n i lo cs res ->
  forall l1 c1 c2 l2, (cs = l1 ++ c1 :: c2 :: l2)%list ->
  taskContinues c1 /\ prompt c2 = buildContinuePrompt (Output (result c1)).
Proof.
  intros Hi Hrun. revert Hi.
  induction Hrun as [ i lo | n i lo k e0 Hk | n i lo e0 Hp | n i lo p r e0 Hp He
                    | n i lo p r Hp He Hs | n i lo p r Hp He Hs
                    | n i lo p r cs res Hp He Hs Hrun IH ];
    intros Hi l1 c1 c2 l2 Heq;
    try (destruct l1 as [|? [|? ?]]; discriminate).
  destruct l1 as [|c0 l1]; simpl in Heq; injection Heq as <- ->.
  - split; [now split |].
    apply TaskRun_head_prompt in Hrun. rewrite taskPrompt_later in Hrun by exact Hi.
    now injection Hrun as <-.
  - apply (IH ltac:(lia) l1 c1 c2 l2 eq_refl).
Qed.

End MoreRunFacts.

(** X1. An executor error is never swallowed or retried: in the Task phase
    and in the Review phase, a result that carries an error is the last
    invocation of the phase, and the phase returns that error wrapped as
    ["claude execution: ..."]. *)
Theorem executor_error_stops_phase {CS XS : Type} (claude : Executor CS)
    (ctx : Context) (ReadFile : FileSystem) (cfg : Config) (p : string)
    (w : World CS XS) :
  (let run := runTaskPhase claude ctx ReadFile cfg w in
   forall c e, In c (newCalls w (snd run)) -> Error (result c) = Some e ->
     fst run = inr ("claude execution: " ++ e) /\
     exists l, newCalls w (snd run) = (l ++ [c])%list) /\
  (let run := runClaudeReview claude ctx p w in
   forall c e, In c (newCalls w (snd run)) -> Error (result c) = Some e ->
     fst run = inr ("claude execution: " ++ e) /\
     exists l, newCalls w (snd run) = (l ++ [c])%list).
Proof.
  split; intros run c e Hin Hc.
  - destruct (runTaskPhase_TaskRun claude ctx ReadFile cfg w) as [_ Hrun].
    exact (TaskRun_error_last _ _ _ _ _ _ _ _ Hrun c e Hin Hc).
  - destruct (runClaudeReview_ReviewRun claude ctx p w) as [_ Hrun].
    exact (ReviewRun_error_last _ _ _ _ _ Hrun c e Hin Hc).
Qed.

Lemma executor_error_stops_phase_witness :
  let claude := mockExecutor [ok "working..." ""; mkResult "" "" (Some "claude error");
                              ok "never asked" SignalCompleted] in
  let run := runTaskPhase claude liveCtx testFS (testFull 10) testWorld in
  fst run = inr "claude execution: claude error" /\
  exists l, newCalls testWorld (snd run)
            = (l ++ [mkCall Claude (buildContinuePrompt "working...")
                            (mkResult "" "" (Some "claude error"))])%list.
Proof.
  intros claude run.
  apply (proj1 (executor_error_stops_phase claude liveCtx testFS (testFull 10) ""
                  testWorld)).
  - vm_compute. right. left. reflexivity.
  - reflexivity.
Defined.

(** X2. The Task phase never makes more invocations than the configured
    maximum (none when it is zero or negative), and it succeeds only on
    COMPLETED: when it returns success, its last result has no error and the
    signal COMPLETED, and every earlier result had no error and no terminal
    signal. *)
Theorem runTaskPhase_success {CS XS : Type} (claude : Executor CS)
    (ctx : Context) (ReadFile : FileSystem) (cfg : Config) (w : World CS XS) :
  let run := runTaskPhase claude ctx ReadFile cfg w in
  let cs := newCalls w (snd run) in
  List.length cs <= Z.to_nat (MaxIterations cfg) /\
  (fst run = inl tt ->
   exists l c, cs = (l ++ [c])%list /\
               Error (result c) = None /\ Signal (result c) = SignalCompleted /\
               Forall taskContinues l).
Proof.
  intros run cs.
  destruct (runTaskPhase_TaskRun claude ctx ReadFile cfg w) as [_ Hrun].
  fold run in Hrun. fold cs in Hrun. split.
  - now apply TaskRun_calls in Hrun.
  - intros Hok. rewrite Hok in Hrun. exact (TaskRun_success _ _ _ _ _ _ _ Hrun).
Qed.

Lemma runTaskPhase_success_witness :
  let claude := mockExecutor [ok "working..." SignalReviewDone;
                              ok "task done" SignalCompleted] in
  let run := runTaskPhase claude liveCtx testFS (testFull 10) testWorld in
  exists l c, newCalls testWorld (snd run) = (l ++ [c])%list /\
              Error (result c) = None /\ Signal (result c) = SignalCompleted /\
              Forall taskContinues l.
Proof.
  intros claude run.
  apply (proj2 (runTaskPhase_success claude liveCtx testFS (testFull 10) testWorld)).
  reflexivity.
Defined.

(** X3. The plan file is embedded in the first Task prompt only: the first
    prompt of the Task phase is the task prompt of iteration 1, which holds
    the content of the plan file verbatim, and every later prompt is the
    continue prompt built from the previous result's output. *)
Theorem runTaskPhase_prompts {CS XS : Type} (claude : Executor CS)
    (ctx : Context) (ReadFile : FileSystem) (cfg : Config) (w : World CS XS) :
  let run := runTaskPhase claude ctx ReadFile cfg w in
  let cs := newCalls w (snd run) in
  (forall c rest, cs = c :: rest ->
     exists content,
       ReadFile (PlanFile cfg) = inl content /\
       prompt c = taskPromptHead 1 ++ content ++ taskPromptTail /\
       Occurs content (prompt c)) /\
  (forall l1 c1 c2 l2, cs = (l1 ++ c1 :: c2 :: l2)%list ->
     prompt c2 = buildContinuePrompt (Output (result c1))).
Proof.
  intros run cs.
  destruct (runTaskPhase_TaskRun claude ctx ReadFile cfg w) as [_ Hrun].
  fold run in Hrun. fold cs in Hrun. split.
  - intros c rest Heq. rewrite Heq in Hrun.
    apply TaskRun_head_prompt in Hrun.
    change (taskPrompt ReadFile cfg 1 "")
      with (buildTaskPrompt ReadFile (PlanFile cfg) 1) in Hrun.
    unfold buildTaskPrompt in Hrun.
    destruct (ReadFile (PlanFile cfg)) as [content | e]; [| discriminate].
    injection Hrun as Hp. exists content. split; [reflexivity |].
    split; [symmetry; exact Hp |].
    exists (taskPromptHead 1), taskPromptTail. symmetry. exact Hp.
  - intros l1 c1 c2 l2 Heq.
    exact (proj2 (TaskRun_chain _ _ _ _ _ _ _ _ (Z.le_refl 1) Hrun l1 c1 c2 l2 Heq)).
Qed.

Lemma runTaskPhase_prompts_witness :
  let claude := mockExecutor [ok "working..." ""; ok "task done" SignalCompleted] in
  let run := runTaskPhase claude liveCtx testFS (testFull 10) testWorld in
  prompt (mkCall Claude (buildContinuePrompt "working...") (ok "task done" SignalCompleted))
  = buildContinuePrompt
      (Output (result (mkCall Claude (taskPromptHead 1 ++ "# Plan" ++ taskPromptTail)
                              (ok "working..." "")))).
Proof.
  intros claude run.
  apply (proj2 (runTaskPhase_prompts claude liveCtx testFS (testFull 10) testWorld)
           [] _ _ []).
  reflexivity.
Defined.

(** ** The pipelines: order of the phases *)

Section PhaseOrder.

Context {CS XS : Type}.
Variable claude : Executor CS.
Variable codex : Executor XS.
Variable ctx : Context.
Variable ReadFile : FileSystem.
Variable cfg : Config.

Lemma wrapped_task_run prefix (w : World CS XS) :
  exists cs r,
    TaskRun ctx ReadFile cfg (Z.to_nat (MaxIterations cfg)) 1 "" cs r /\
    wrapErr prefix (runTaskPhase claude ctx ReadFile cfg) w
    = (match r with inl a => inl a | inr e => inr (prefix ++ e) end,
       snd (runTaskPhase claude ctx ReadFile cfg w)) /\
    calls (snd (runTaskPhase claude ctx ReadFile cfg w)) = (calls w ++ cs)%list.
Proof.
  destruct (runTaskPhase_TaskRun claude ctx ReadFile cfg w) as [Hc Hrun].
  exists (newCalls w (snd (runTaskPhase claude ctx ReadFile cfg w))),
         (fst (runTaskPhase claude ctx ReadFile cfg w)).
  split; [exact Hrun |]. split; [| exact Hc]. unfold wrapErr.
  now destruct (runTaskPhase claude ctx ReadFile cfg w) as [[a | e] w1].
Qed.

Lemma wrapped_review_run prefix p (w : World CS XS) :
  exists cs r,
    ReviewRun ctx (Z.to_nat maxReviewIterations) p cs r /\
    wrapErr prefix (runClaudeReview claude ctx p) w
    = (match r with inl a => inl a | inr e => inr (prefix ++ e) end,
       snd (runClaudeReview claude ctx p w)) /\
    calls (snd (runClaudeReview claude ctx p w)) = (calls w ++ cs)%list.
Proof.
  destruct (runClaudeReview_ReviewRun claude ctx p w) as [Hc Hrun].
  exists (newCalls w (snd (runClaudeReview claude ctx p w))),
         (fst (runClaudeReview claude ctx p w)).
  split; [exact Hrun |]. split; [| exact Hc]. unfold wrapErr.
  now destruct (runClaudeReview claude ctx p w) as [[a | e] w1].
Qed.

(** The run of the review pipeline, phase by phase. *)
Lemma runReviewOnly_phases (w w' : World CS XS) res :
  runReviewOnly claude codex ctx w = (res, w') ->
  exists R rR,
    ReviewRun ctx (Z.to_nat maxReviewIterations) buildFirstReviewPrompt R rR /\
    match rR with
    | inr e => calls w' = (calls w ++ R)%list /\ res = inr ("first review: " ++ e)
    | inl _ =>
        exists cx post,
          calls w' = (calls w ++ R ++ cx :: post)%list /\
          isCodex cx /\ prompt cx = buildCodexPrompt /\ FollowUp ctx cx post res
    end.
Proof.
  unfold runReviewOnly, bind at 1 2 3, logSetPhase at 1, logPrint at 1.
  match goal with |- context [wrapErr ?pf (runClaudeReview claude ctx ?p) ?w1] =>
    destruct (wrapped_review_run pf p w1) as [R [rR [Hrun [Heq Hc]]]];
    rewrite Heq; clear Heq
  end.
  simpl in Hc. intros H. exists R, rR. split; [exact Hrun |].
  destruct rR as [[] | e].
  - apply analysisTail_FollowUp in H as [cx [post [Hc' [Hcx [Hp Hf]]]]].
    exists cx, post. simpl in Hc'. rewrite Hc', Hc, <- app_assoc. now repeat split.
  - injection H as <- <-. now split.
Qed.

(** The run of the full pipeline, phase by phase. *)
Lemma runFull_phases (w w' : World CS XS) res :
  PlanFile cfg <> "" ->
  runFull claude codex ctx ReadFile cfg w = (res, w') ->
  exists T rT,
    TaskRun ctx ReadFile cfg (Z.to_nat (MaxIterations cfg)) 1 "" T rT /\
    match rT with
    | inr e => calls w' = (calls w ++ T)%list /\ res = inr ("task phase: " ++ e)
    | inl _ =>
        exists R rR,
          ReviewRun ctx (Z.to_nat maxReviewIterations) buildFirstReviewPrompt R rR /\
          match rR with
          | inr e => calls w' = (calls w ++ T ++ R)%list /\
                     res = inr ("first review: " ++ e)
          | inl _ =>
              exists cx post,
                calls w' = (calls w ++ T ++ R ++ cx :: post)%list /\
                isCodex cx /\ prompt cx = buildCodexPrompt /\ FollowUp ctx cx post res
          end
    end.
Proof.
  intros Hplan. apply String.eqb_neq in Hplan.
  unfold runFull. rewrite Hplan.
  unfold bind at 1 2 3, logSetPhase at 1, logPrint at 1.
  match goal with |- context [wrapErr ?pf (runTaskPhase claude ctx ReadFile cfg) ?w1] =>
    destruct (wrapped_task_run pf w1) as [T [rT [HrunT [Heq HcT]]]];
    rewrite Heq; clear Heq
  end.
  simpl in HcT. destruct rT as [[] | e].
  2: { intros H. injection H as <- <-. exists T, (inr e). now repeat split. }
  unfold bind at 1 2 3, logSetPhase at 1, logPrint at 1.
  match goal with |- context [wrapErr ?pf (runClaudeReview claude ctx ?p) ?w3] =>
    destruct (wrapped_review_run pf p w3) as [R [rR [HrunR [Heq HcR]]]];
    rewrite Heq; clear Heq
  end.
  simpl in HcR. intros H. exists T, (inl tt). split; [exact HrunT |].
  exists R, rR. split; [exact HrunR |].
  destruct rR as [[] | e].
  - apply analysisTail_FollowUp in H as [cx [post [Hc' [Hcx [Hp Hf]]]]].
    exists cx, post. simpl in Hc'. rewrite Hc', HcR, HcT, <- !app_assoc.
    now repeat split.
  - injection H as <- <-. rewrite HcR, HcT, <- app_assoc. now split.
Qed.

End PhaseOrder.

Lemma claude_not_codex (cx : Call) (l : list Call) :
  isCodex cx -> Forall isClaude l -> ~ In cx l.
Proof.
  intros Hx Hl Hin. rewrite Forall_forall in Hl. specialize (Hl cx Hin).
  unfold isClaude, isCodex in *. congruence.
Qed.

Lemma codex_call_unique (cx cx' : Call) (a b : list Call) :
  isCodex cx -> Forall isClaude a -> Forall isClaude b ->
  In cx (a ++ cx' :: b) -> cx' = cx.
Proof.
  intros Hx Ha Hb Hin. apply in_app_or in Hin as [Hi | [He | Hi]].
  - now apply claude_not_codex in Hi.
  - exact He.
  - now apply claude_not_codex in Hi.
Qed.

(** X4. No phase begins before its predecessor has succeeded: when codex is
    invoked in a run, then in full mode the calls before it are those of a
    Task phase that ended on a result with COMPLETED followed by those of a
    first Review phase that ended on a result with REVIEW_DONE; in review mode
    they are those of such a Review phase; in codex-only mode there is none. *)
Theorem analysis_after_predecessors {CS XS : Type} (claude : Executor CS)
    (codex : Executor XS) (ctx : Context) (ReadFile : FileSystem) (cfg : Config)
    (c0 : CS) (x0 : XS) (cx : Call) :
  let run := Run claude codex ctx ReadFile cfg (initWorld c0 x0) in
  In cx (calls (snd run)) -> isCodex cx ->
  (Mode cfg = ModeFull ->
   exists T R post,
     calls (snd run) = (T ++ R ++ cx :: post)%list /\
     Forall isClaude T /\ Forall isClaude R /\
     (exists l c, T = (l ++ [c])%list /\
                  Error (result c) = None /\ Signal (result c) = SignalCompleted) /\
     (exists l c, R = (l ++ [c])%list /\
                  Error (result c) = None /\ Signal (result c) = SignalReviewDone)) /\
  (Mode cfg = ModeReview ->
   exists R post,
     calls (snd run) = (R ++ cx :: post)%list /\
     Forall isClaude R /\
     (exists l c, R = (l ++ [c])%list /\
                  Error (result c) = None /\ Signal (result c) = SignalReviewDone)) /\
  (Mode cfg = ModeCodexOnly ->
   exists post, calls (snd run) = cx :: post).
Proof.
  intros run Hin Hcx. subst run.
  destruct (Run claude codex ctx ReadFile cfg (initWorld c0 x0)) as [res w'] eqn:Hrun.
  simpl in *. unfold Run in Hrun. split; [| split]; intros Hm; rewrite Hm in Hrun;
    simpl in Hrun.
  - destruct (String.eqb_spec (PlanFile cfg) "") as [Hplan | Hplan].
    { unfold runFull in Hrun. rewrite Hplan in Hrun. injection Hrun as _ <-.
      contradiction. }
    apply (runFull_phases _ _ _ _ _ _ _ _ Hplan) in Hrun
      as [T [[[] | eT] [HrunT Hrest]]]; simpl in Hrest.
    2: { destruct Hrest as [Hc _]. rewrite Hc in Hin.
         apply TaskRun_calls in HrunT as [_ HT]. now apply claude_not_codex in Hin. }
    destruct Hrest as [R [[[] | eR] [HrunR Hrest]]].
    2: { destruct Hrest as [Hc _]. rewrite Hc in Hin.
         apply TaskRun_calls in HrunT as [_ HT].
         apply ReviewRun_calls in HrunR as [_ HR].
         apply claude_not_codex in Hin; [contradiction | exact Hcx |].
         apply Forall_app. now split. }
    destruct Hrest as [cx' [post [Hc [Hcx' [_ Hf]]]]].
    pose proof (TaskRun_calls _ _ _ _ _ _ _ _ HrunT) as [_ HT].
    pose proof (ReviewRun_calls _ _ _ _ _ HrunR) as [_ HR].
    destruct (FollowUp_calls _ _ _ _ Hf) as [Hpost _].
    assert (cx' = cx) as ->.
    { rewrite Hc, app_assoc in Hin.
      apply (codex_call_unique cx cx' (T ++ R) post Hcx); auto.
      apply Forall_app. now split. }
    exists T, R, post. split; [exact Hc |]. split; [exact HT |]. split; [exact HR |].
    split.
    + destruct (TaskRun_success _ _ _ _ _ _ _ HrunT) as [l [c [Hl [He [Hs _]]]]].
      now exists l, c.
    + exact (ReviewRun_success _ _ _ _ HrunR).
  - apply runReviewOnly_phases in Hrun as [R [[[] | eR] [HrunR Hrest]]].
    2: { destruct Hrest as [Hc _]. rewrite Hc in Hin.
         apply ReviewRun_calls in HrunR as [_ HR]. now apply claude_not_codex in Hin. }
    destruct Hrest as [cx' [post [Hc [Hcx' [_ Hf]]]]].
    pose proof (ReviewRun_calls _ _ _ _ _ HrunR) as [_ HR].
    destruct (FollowUp_calls _ _ _ _ Hf) as [Hpost _].
    assert (cx' = cx) as ->.
    { rewrite Hc in Hin. apply (codex_call_unique cx cx' R post Hcx); auto. }
    exists R, post. split; [exact Hc |]. split; [exact HR |].
    exact (ReviewRun_success _ _ _ _ HrunR).
  - apply analysisTail_FollowUp in Hrun as [cx' [post [Hc [Hcx' [_ Hf]]]]].
    destruct (FollowUp_calls _ _ _ _ Hf) as [Hpost _]. simpl in Hc.
    assert (cx' = cx) as ->.
    { rewrite Hc in Hin. apply (codex_call_unique cx cx' [] post Hcx); auto. }
    now exists post.
Qed.

Lemma analysis_after_predecessors_witness :
  let claude := mockExecutor [ok "working..." ""; ok "task done" SignalCompleted;
                              ok "review done" SignalReviewDone] in
  let codex := mockExecutor [ok "" ""] in
  let run := Run claude codex liveCtx testFS (testFull 10) (initWorld 0 0) in
  let cx := mkCall Codex buildCodexPrompt (ok "" "") in
  exists T R post,
    calls (snd run) = (T ++ R ++ cx :: post)%list /\
    Forall isClaude T /\ Forall isClaude R /\
    (exists l c, T = (l ++ [c])%list /\
                 Error (result c) = None /\ Signal (result c) = SignalCompleted) /\
    (exists l c, R = (l ++ [c])%list /\
                 Error (result c) = None /\ Signal (result c) = SignalReviewDone).
Proof.
  intros claude codex run cx.
  apply (proj1 (analysis_after_predecessors claude codex liveCtx testFS (testFull 10)
                  0 0 cx ltac:(vm_compute; tauto) eq_refl)).
  reflexivity.
Defined.

(** X5. A codex error ends the run: when the codex result carries an error,
    that invocation is the last one of the run, no follow-up review is made,
    and the run returns the error wrapped as
    ["codex phase: codex execution: ..."]. *)
Theorem codex_error_ends_run {CS XS : Type} (claude : Executor CS)
    (codex : Executor XS) (ctx : Context) (ReadFile : FileSystem) (cfg : Config)
    (c0 : CS) (x0 : XS) (cx : Call) (e : string) :
  let run := Run claude codex ctx ReadFile cfg (initWorld c0 x0) in
  In cx (calls (snd run)) -> isCodex cx -> Error (result cx) = Some e ->
  fst run = inr ("codex phase: codex execution: " ++ e) /\
  exists pre, calls (snd run) = (pre ++ [cx])%list /\ Forall isClaude pre.
Proof.
  intros run Hin Hcx Herr.
  destruct (Run_shape claude codex ctx ReadFile cfg (initWorld c0 x0)
              (snd run) (fst run)) as [pre [Hpre Hshape]].
  { subst run. now destruct (Run claude codex ctx ReadFile cfg (initWorld c0 x0)). }
  simpl in Hshape. destruct Hshape as [Hc | [cx' [post [Hc [_ [_ Hf]]]]]].
  { rewrite Hc in Hin. now apply claude_not_codex in Hin. }
  destruct (FollowUp_calls _ _ _ _ Hf) as [Hpost _].
  assert (cx' = cx) as ->.
  { rewrite Hc in Hin. apply (codex_call_unique cx cx' pre post Hcx); auto. }
  unfold FollowUp in Hf. rewrite Herr in Hf. destruct Hf as [-> Hres].
  split; [exact Hres |]. now exists pre.
Qed.

Lemma codex_error_ends_run_witness :
  let claude := mockExecutor [ok "review done" SignalReviewDone] in
  let codex := mockExecutor [mkResult "" "" (Some "codex error")] in
  let run := Run claude codex liveCtx testFS (mkConfig "" ModeReview 0 false false)
                 (initWorld 0 0) in
  let cx := mkCall Codex buildCodexPrompt (mkResult "" "" (Some "codex error")) in
  fst run = inr ("codex phase: codex execution: " ++ "codex error") /\
  exists pre, calls (snd run) = (pre ++ [cx])%list /\ Forall isClaude pre.
Proof.
  intros claude codex run cx.
  apply (codex_error_ends_run claude codex liveCtx testFS
           (mkConfig "" ModeReview 0 false false) 0 0 cx "codex error").
  - vm_compute. right. left. reflexivity.
  - reflexivity.
  - reflexivity.
Defined.

(** ** Reasoning about computations *)

Section HoareRules.

Context {CS XS : Type}.

Lemma hoare_ret {A : Type} (P : World CS XS -> Prop) (a : A) Q E :
  (forall w, P w -> Q a w) -> hoare P (ret a) Q E.
Proof. intros H w Hw. now apply H. Qed.

Lemma hoare_throw {A : Type} (P : World CS XS -> Prop) (e : string)
    (Q : A -> World CS XS -> Prop) E :
  (forall w, P w -> E e w) -> hoare P (throw e) Q E.
Proof. intros H w Hw. now apply H. Qed.

Lemma hoare_bind {A B : Type} (P : World CS XS -> Prop) (m : M CS XS A)
    (Q1 : A -> World CS XS -> Prop) (k : A -> M CS XS B) Q E :
  hoare P m Q1 E -> (forall a, hoare (Q1 a) (k a) Q E) -> hoare P (bind m k) Q E.
Proof.
  intros Hm Hk w Hw. unfold bind. specialize (Hm w Hw).
  destruct (m w) as [[a | e] w1]; [now apply Hk | exact Hm].
Qed.

Lemma hoare_wrapErr {A : Type} (P : World CS XS -> Prop) (m : M CS XS A)
    (prefix : string) Q E :
  hoare P m Q (fun e => E (prefix ++ e)) -> hoare P (wrapErr prefix m) Q E.
Proof.
  intros Hm w Hw. unfold wrapErr. specialize (Hm w Hw).
  now destruct (m w) as [[a | e] w1].
Qed.

Lemma hoare_conseq {A : Type} (P P' : World CS XS -> Prop) (m : M CS XS A)
    (Q Q' : A -> World CS XS -> Prop) (E E' : string -> World CS XS -> Prop) :
  hoare P m Q E ->
  (forall w, P' w -> P w) ->
  (forall a w, Q a w -> Q' a w) ->
  (forall e w, E e w -> E' e w) ->
  hoare P' m Q' E'.
Proof.
  intros Hm HP HQ HE w Hw. specialize (Hm w (HP w Hw)).
  destruct (m w) as [[a | e] w1]; [now apply HQ | now apply HE].
Qed.

Lemma hoare_liftErr {A : Type} (P : World CS XS -> Prop) (r : A + string) Q E :
  (forall a w, r = inl a -> P w -> Q a w) ->
  (forall e w, r = inr e -> P w -> E e w) ->
  hoare P (liftErr r) Q E.
Proof. intros HQ HE w Hw. destruct r as [a | e]; simpl; auto. Qed.

Lemma countCalls_app (a : Agent) (l1 l2 : list Call) :
  countCalls a (l1 ++ l2) = countCalls a l1 + countCalls a l2.
Proof. induction l1 as [|c l1 IH]; simpl; [reflexivity | rewrite IH; lia]. Qed.

Lemma countCalls_all (a : Agent) (l : list Call) :
  Forall (fun c => agent c = a) l -> countCalls a l = List.length l.
Proof.
  induction 1 as [|c l Hc _ IH]; simpl; [reflexivity |].
  rewrite Hc, IH. now destruct a.
Qed.

Lemma countCalls_none (a b : Agent) (l : list Call) :
  a <> b -> Forall (fun c => agent c = b) l -> countCalls a l = 0.
Proof.
  intros Hab. induction 1 as [|c l Hc _ IH]; simpl; [reflexivity |].
  rewrite Hc, IH. destruct a, b; try reflexivity; now elim Hab.
Qed.

End HoareRules.

(** ** Cancellation *)

Section Cancellation.

Context {CS XS : Type}.
Variable claude : Executor CS.
Variable codex : Executor XS.
Variable ctx : Context.
Variable ReadFile : FileSystem.
Variable cfg : Config.
Variable p : nat.
Variable e0 : string.
Hypothesis ctx_canceled : ctx p = Some e0.

Lemma polledAhead_within w : (@polledAhead CS XS p) w -> (@withinPolls CS XS p) w.
Proof. unfold polledAhead, withinPolls. lia. Qed.

Lemma hoare_log_polled (msg : string) :
  hoare (@polledAhead CS XS p) (logPrint msg) (fun _ => (@polledAhead CS XS p)) (fun _ => (@withinPolls CS XS p)).
Proof. intros w Hw. exact Hw. Qed.

Lemma hoare_phase_polled (ph : Phase) :
  hoare (@polledAhead CS XS p) (logSetPhase ph) (fun _ => (@polledAhead CS XS p)) (fun _ => (@withinPolls CS XS p)).
Proof. intros w Hw. exact Hw. Qed.

(** One iteration's poll and call, shared by the two loops. *)
Lemma hoare_poll_then {A : Type} (errOf : string -> string)
    (k : M CS XS A) :
  hoare (@polledOnce CS XS p) k (fun _ => (@polledAhead CS XS p)) (fun _ => (@withinPolls CS XS p)) ->
  hoare (@polledAhead CS XS p)
        (bind (ctxDone ctx)
              (fun done => match done with
                           | Some e => throw (errOf e)
                           | None => k
                           end))
        (fun _ => (@polledAhead CS XS p)) (fun _ => (@withinPolls CS XS p)).
Proof.
  intros Hk w [Hc Hp]. unfold bind, ctxDone.
  destruct (ctx (polls w)) as [e|] eqn:Hpoll.
  - simpl. unfold withinPolls. simpl. lia.
  - apply Hk. unfold polledOnce. simpl. split; [lia |].
    destruct (Nat.eq_dec (polls w) p) as [Heq | Hne]; [| lia].
    rewrite Heq, ctx_canceled in Hpoll. discriminate.
Qed.

Lemma hoare_claudeRun_polled (pr : string) :
  hoare (@polledOnce CS XS p) (claudeRun claude pr) (fun _ => (@polledAhead CS XS p)) (fun _ => (@withinPolls CS XS p)).
Proof.
  intros w [Hc Hp]. unfold claudeRun.
  destruct (claude (claudeSt w) pr) as [r s]. unfold polledAhead. simpl.
  rewrite countCalls_app. simpl. lia.
Qed.

Lemma taskLoop_polled (n : nat) :
  forall i lo,
    hoare (@polledAhead CS XS p) (taskLoop claude ctx ReadFile cfg n i lo)
          (fun _ => (@polledAhead CS XS p)) (fun _ => (@withinPolls CS XS p)).
Proof.
  induction n as [|n IH]; intros i lo; cbn [taskLoop].
  - apply hoare_throw. apply polledAhead_within.
  - apply hoare_poll_then.
    eapply hoare_bind with (Q1 := fun _ => (@polledOnce CS XS p));
      [intros w Hw; exact Hw | intros []].
    eapply hoare_bind with (Q1 := fun _ => (@polledOnce CS XS p)).
    { destruct (i =? 1)%Z.
      - apply hoare_liftErr; [auto |].
        intros e w _ [Hc Hp]. unfold withinPolls. lia.
      - now apply hoare_ret. }
    intros pr. eapply hoare_bind; [apply hoare_claudeRun_polled | intros r].
    destruct (Error r); [apply hoare_throw, polledAhead_within |].
    destruct (IsTerminalSignal (Signal r)); [| apply IH].
    destruct (Signal r =? SignalFailed); [apply hoare_throw, polledAhead_within |].
    eapply hoare_bind; [apply hoare_log_polled | intros []].
    now apply hoare_ret.
Qed.

Lemma reviewLoop_polled (n : nat) :
  forall i pr,
    hoare (@polledAhead CS XS p) (reviewLoop claude ctx n i pr)
          (fun _ => (@polledAhead CS XS p)) (fun _ => (@withinPolls CS XS p)).
Proof.
  induction n as [|n IH]; intros i pr; cbn [reviewLoop].
  - apply hoare_throw. apply polledAhead_within.
  - apply hoare_poll_then.
    eapply hoare_bind with (Q1 := fun _ => (@polledOnce CS XS p));
      [intros w Hw; exact Hw | intros []].
    eapply hoare_bind; [apply hoare_claudeRun_polled | intros r].
    destruct (Error r); [apply hoare_throw, polledAhead_within |].
    destruct (Signal r =? SignalFailed); [apply hoare_throw, polledAhead_within |].
    destruct (IsReviewDone (Signal r)); [| apply IH].
    eapply hoare_bind; [apply hoare_log_polled | intros []].
    now apply hoare_ret.
Qed.

Lemma runCodexPhase_polled :
  hoare (@polledAhead CS XS p) (runCodexPhase codex) (fun _ => (@polledAhead CS XS p)) (fun _ => (@withinPolls CS XS p)).
Proof.
  intros w [Hc Hp]. unfold runCodexPhase, bind, codexRun.
  destruct (codex (codexSt w) buildCodexPrompt) as [r s]. simpl.
  assert (Hcount : countCalls Claude (calls w ++ [mkCall Codex buildCodexPrompt r])
                   = countCalls Claude (calls w))
    by (rewrite countCalls_app; simpl; lia).
  destruct (Error r); [unfold withinPolls; simpl; lia |].
  destruct (Output r =? ""); unfold polledAhead; simpl; lia.
Qed.

Local Ltac polled_step :=
  first
    [ apply hoare_wrapErr; first
        [ apply taskLoop_polled | apply reviewLoop_polled | apply runCodexPhase_polled ]
    | apply hoare_log_polled
    | apply hoare_phase_polled
    | apply hoare_ret; now auto
    | apply hoare_throw; intros; now apply polledAhead_within ].

Local Ltac polled_chain :=
  repeat first
    [ polled_step
    | match goal with |- hoare _ (if ?b then _ else _) _ _ => destruct b end
    | eapply hoare_bind with (Q1 := fun _ => (@polledAhead CS XS p)); [| intros ?] ].

Lemma Run_polled :
  hoare (@polledAhead CS XS p) (Run claude codex ctx ReadFile cfg)
        (fun _ => (@polledAhead CS XS p)) (fun _ => (@withinPolls CS XS p)).
Proof.
  unfold Run, runFull, runReviewOnly, runCodexOnly, runTaskPhase, runClaudeReview.
  polled_chain.
Qed.

End Cancellation.

(** X6. Cancellation is observed before every Claude invocation: when the
    context reports cancellation at its [p]-th poll (polls are counted from 0
    over the whole run), the run makes at most [p] Claude invocations; none
    when the context is cancelled from the start. *)
Theorem cancellation_bounds_invocations {CS XS : Type} (claude : Executor CS)
    (codex : Executor XS) (ctx : Context) (ReadFile : FileSystem) (cfg : Config)
    (c0 : CS) (x0 : XS) (p : nat) (e : string) :
  ctx p = Some e ->
  countCalls Claude (calls (snd (Run claude codex ctx ReadFile cfg (initWorld c0 x0))))
  <= p.
Proof.
  intros Hp.
  pose proof (Run_polled claude codex ctx ReadFile cfg p e Hp (initWorld c0 x0)) as H.
  destruct (Run claude codex ctx ReadFile cfg (initWorld c0 x0)) as [[[] | e'] w'];
    simpl.
  - apply polledAhead_within, H. unfold polledAhead. simpl. lia.
  - apply H. unfold polledAhead. simpl. lia.
Qed.

Lemma cancellation_bounds_invocations_witness :
  countCalls Claude
    (calls (snd (Run (mockExecutor [ok "working..." ""; ok "still working..." "";
                                    ok "task done" SignalCompleted])
                     (mockExecutor []) (canceledFrom 1) testFS (testFull 10)
                     (initWorld 0 0))))
  <= 1.
Proof.
  apply (cancellation_bounds_invocations _ _ (canceledFrom 1) testFS (testFull 10)
           0 0 1 "context canceled").
  reflexivity.
Defined.

(** X7. The Analysis phase does not poll the context: in codex-only mode,
    with a context that is already cancelled, codex is still invoked, once,
    and it is the only invocation; the run returns the codex error if there is
    one, succeeds if the output is empty, and otherwise fails in the follow-up
    review with the cancellation error, before Claude is invoked. *)
Theorem analysis_runs_when_cancelled {CS XS : Type} (claude : Executor CS)
    (codex : Executor XS) (ctx : Context) (ReadFile : FileSystem) (cfg : Config)
    (c0 : CS) (x0 : XS) (e : string) :
  Mode cfg = ModeCodexOnly ->
  ctx 0 = Some e ->
  let r := fst (codex x0 buildCodexPrompt) in
  let run := Run claude codex ctx ReadFile cfg (initWorld c0 x0) in
  calls (snd run) = [mkCall Codex buildCodexPrompt r] /\
  fst run = match Error r with
            | Some e' => inr ("codex phase: codex execution: " ++ e')
            | None => if Output r =? "" then inl tt
                      else inr ("review: review: " ++ e)
            end.
Proof.
  intros Hm Hctx r run. subst r run. unfold Run. rewrite Hm. simpl.
  unfold runCodexOnly, bind, wrapErr, logSetPhase, logPrint, runCodexPhase,
    bind, codexRun. simpl.
  destruct (codex x0 buildCodexPrompt) as [r s]. simpl.
  destruct (Error r) as [e'|]; simpl; [now split |].
  destruct (Output r =? "") eqn:Hout; simpl; [now split |].
  rewrite Hout. simpl. unfold runClaudeReview. cbn [Z.to_nat maxReviewIterations].
  change (Pos.to_nat 10) with 10. cbn [reviewLoop].
  unfold bind, ctxDone. simpl. rewrite Hctx. now split.
Qed.

Lemma analysis_runs_when_cancelled_witness :
  let run := Run (mockExecutor [ok "never asked" SignalReviewDone])
                 (mockExecutor [ok "found issue" ""]) canceledCtx testFS
                 (mkConfig "" ModeCodexOnly 0 false false) (initWorld 0 0) in
  calls (snd run) = [mkCall Codex buildCodexPrompt (ok "found issue" "")] /\
  fst run = inr ("review: review: " ++ "context canceled").
Proof.
  intros run.
  apply (analysis_runs_when_cancelled
           (mockExecutor [ok "never asked" SignalReviewDone])
           (mockExecutor [ok "found issue" ""]) canceledCtx testFS
           (mkConfig "" ModeCodexOnly 0 false false) 0 0 "context canceled");
    reflexivity.
Defined.

(** ** Bounds on the invocations of a run *)

Lemma countCalls_claude (l : list Call) :
  Forall isClaude l -> countCalls Claude l = List.length l /\ countCalls Codex l = 0.
Proof.
  intros H. split.
  - now apply countCalls_all.
  - apply (countCalls_none Codex Claude); [discriminate | exact H].
Qed.

Lemma countCalls_codex_call (a : Agent) (cx : Call) :
  isCodex cx ->
  countCalls a [cx] = match a with Claude => 0 | Codex => 1 end.
Proof. intros H. simpl. rewrite H. now destruct a. Qed.

(** The counts of a trace made of Claude calls around one codex call. *)
Lemma countCalls_around (pre post : list Call) (cx : Call) :
  Forall isClaude pre -> Forall isClaude post -> isCodex cx ->
  countCalls Claude (pre ++ cx :: post) = List.length pre + List.length post /\
  countCalls Codex (pre ++ cx :: post) = 1.
Proof.
  intros Hpre Hpost Hcx.
  change (cx :: post) with ([cx] ++ post)%list.
  rewrite !countCalls_app, !(countCalls_codex_call _ cx Hcx).
  destruct (countCalls_claude pre Hpre) as [-> ->].
  destruct (countCalls_claude post Hpost) as [-> ->]. lia.
Qed.

(** X8. The invocations of a run are bounded: codex is invoked at most once,
    and Claude at most [max(MaxIterations, 0) + 20] times in full mode, 20
    times in review mode and 10 times in codex-only mode. *)
Theorem run_invocation_bounds {CS XS : Type} (claude : Executor CS)
    (codex : Executor XS) (ctx : Context) (ReadFile : FileSystem) (cfg : Config)
    (c0 : CS) (x0 : XS) :
  let trace := calls (snd (Run claude codex ctx ReadFile cfg (initWorld c0 x0))) in
  countCalls Codex trace <= 1 /\
  countCalls Claude trace <= Z.to_nat (MaxIterations cfg) + 20 /\
  (Mode cfg = ModeReview -> countCalls Claude trace <= 20) /\
  (Mode cfg = ModeCodexOnly -> countCalls Claude trace <= 10).
Proof.
  intros trace. subst trace.
  destruct (Run claude codex ctx ReadFile cfg (initWorld c0 x0)) as [res w'] eqn:Hrun.
  simpl. unfold Run in Hrun.
  assert (Hten : Z.to_nat maxReviewIterations = 10) by reflexivity.
  destruct (Mode cfg =? ModeFull) eqn:Hfull.
  { apply String.eqb_eq in Hfull.
    assert (Hmain : countCalls Codex (calls w') <= 1 /\
                    countCalls Claude (calls w') <= Z.to_nat (MaxIterations cfg) + 20).
    { destruct (String.eqb_spec (PlanFile cfg) "") as [Hplan | Hplan].
      { unfold runFull in Hrun. rewrite Hplan in Hrun. injection Hrun as _ <-.
        simpl. lia. }
      apply (runFull_phases _ _ _ _ _ _ _ _ Hplan) in Hrun
        as [T [rT [HrunT Hrest]]].
      pose proof (TaskRun_calls _ _ _ _ _ _ _ _ HrunT) as [HlenT HT].
      destruct rT as [[] | eT].
      2: { destruct Hrest as [-> _]. simpl.
           destruct (countCalls_claude T HT) as [-> ->]. lia. }
      destruct Hrest as [R [rR [HrunR Hrest]]].
      pose proof (ReviewRun_calls _ _ _ _ _ HrunR) as [HlenR HR].
      destruct rR as [[] | eR].
      2: { destruct Hrest as [-> _]. simpl.
           destruct (countCalls_claude (T ++ R)) as [-> ->];
             [apply Forall_app; now split |].
           rewrite List.length_app. lia. }
      destruct Hrest as [cx [post [-> [Hcx [_ Hf]]]]]. simpl.
      destruct (FollowUp_calls _ _ _ _ Hf) as [Hpost Hlen].
      rewrite app_assoc.
      destruct (countCalls_around (T ++ R) post cx) as [-> ->];
        [apply Forall_app; now split | exact Hpost | exact Hcx |].
      rewrite List.length_app. lia. }
    destruct Hmain as [H1 H2]. rewrite Hfull.
    repeat split; try assumption; discriminate. }
  destruct (Mode cfg =? ModeReview) eqn:Hrev.
  { apply String.eqb_eq in Hrev.
    assert (Hmain : countCalls Codex (calls w') <= 1 /\
                    countCalls Claude (calls w') <= 20).
    { apply runReviewOnly_phases in Hrun as [R [rR [HrunR Hrest]]].
      pose proof (ReviewRun_calls _ _ _ _ _ HrunR) as [HlenR HR].
      destruct rR as [[] | eR].
      2: { destruct Hrest as [-> _]. simpl.
           destruct (countCalls_claude R HR) as [-> ->]. lia. }
      destruct Hrest as [cx [post [-> [Hcx [_ Hf]]]]]. simpl.
      destruct (FollowUp_calls _ _ _ _ Hf) as [Hpost Hlen].
      destruct (countCalls_around R post cx HR Hpost Hcx) as [-> ->]. lia. }
    destruct Hmain as [H1 H2]. rewrite Hrev.
    repeat split; try assumption; try lia. discriminate. }
  destruct (Mode cfg =? ModeCodexOnly) eqn:Hcod.
  { apply String.eqb_eq in Hcod.
    assert (Hmain : countCalls Codex (calls w') <= 1 /\
                    countCalls Claude (calls w') <= 10).
    { apply analysisTail_FollowUp in Hrun as [cx [post [-> [Hcx [_ Hf]]]]]. simpl.
      destruct (FollowUp_calls _ _ _ _ Hf) as [Hpost Hlen].
      destruct (countCalls_around [] post cx (Forall_nil _) Hpost Hcx) as [H1 H2].
      simpl in H1, H2. rewrite H1, H2. simpl. lia. }
    destruct Hmain as [H1 H2]. repeat split; try assumption; lia. }
  injection Hrun as _ <-. simpl.
  apply String.eqb_neq in Hrev, Hcod.
  repeat split; try lia; intros Hm; contradiction.
Qed.

Lemma run_invocation_bounds_witness :
  countCalls Claude
    (calls (snd (Run (mockExecutor stillReviewing) (mockExecutor []) liveCtx testFS
                     (mkConfig "" ModeReview 0 false false) (initWorld 0 0))))
  <= 20.
Proof.
  apply (proj1 (proj2 (proj2 (run_invocation_bounds (mockExecutor stillReviewing)
                                (mockExecutor []) liveCtx testFS
                                (mkConfig "" ModeReview 0 false false) 0 0)))).
  reflexivity.
Defined.

(** ** The errors of a run *)

Section RunErrors.

Context {CS XS : Type}.
Variable claude : Executor CS.
Variable codex : Executor XS.
Variable ctx : Context.
Variable ReadFile : FileSystem.
Variable cfg : Config.

Lemma newCalls_same (w w' : World CS XS) :
  calls w' = calls w -> newCalls w w' = [].
Proof. intros H. apply newCalls_app. now rewrite app_nil_r. Qed.

(** How the last two steps of a pipeline fail: in the codex call, or in the
    follow-up review on its findings. *)
Lemma analysisTail_failure msgFollow prefix msgDone (w w' : World CS XS) e :
  analysisTail claude codex ctx msgFollow prefix msgDone w = (inr e, w') ->
  exists cx post,
    calls w' = (calls w ++ cx :: post)%list /\ isCodex cx /\
    ((exists ee, Error (result cx) = Some ee /\ post = [] /\
                 e = "codex phase: codex execution: " ++ ee) \/
     (Error (result cx) = None /\
      exists e', ReviewRun ctx (Z.to_nat maxReviewIterations)
                   (buildSecondReviewPrompt (Output (result cx))) post (inr e') /\
                 e = prefix ++ e')).
Proof.
  unfold analysisTail, bind at 1, wrapErr at 1.
  pose proof (runCodexPhase_call codex w) as [Hres Hc1].
  destruct (runCodexPhase codex w) as [r1 w1] eqn:H1. simpl in Hres, Hc1.
  set (r := fst (codex (codexSt w) buildCodexPrompt)) in *.
  set (cx := mkCall Codex buildCodexPrompt r) in *.
  intros H. exists cx. change (result cx) with r.
  destruct (Error r) as [ee|].
  - subst r1. injection H as <- <-. exists []. split; [exact Hc1 |].
    split; [reflexivity |]. left. now exists ee.
  - subst r1. destruct (Output r =? "") eqn:Hout.
    + simpl in H. unfold bind, logPrint, ret in H. simpl in H. discriminate H.
    + simpl in H. unfold bind at 1 2 3, logSetPhase, logPrint, wrapErr in H.
      match type of H with context [runClaudeReview claude ctx ?p ?w2] =>
        pose proof (runClaudeReview_ReviewRun claude ctx p w2) as [Hc2 Hrun];
        destruct (runClaudeReview claude ctx p w2) as [r2 w3] eqn:H2
      end.
      simpl in Hc2, Hrun.
      match type of Hrun with ReviewRun _ _ _ ?cs _ =>
        generalize dependent cs; intros post Hc2 Hrun
      end.
      exists post. destruct r2 as [[] | e2].
      * unfold bind, logPrint, ret in H. discriminate H.
      * injection H as <- <-. split; [now rewrite Hc2, Hc1, <- app_assoc |].
        split; [reflexivity |]. right. split; [reflexivity |]. now exists e2.
Qed.

(** The failure of the last two steps after the Claude calls [pre]. *)
Lemma analysisTail_RunFailure msgFollow msgDone (w0 w w' : World CS XS) pre e :
  analysisTail claude codex ctx msgFollow (followUpPrefix cfg) msgDone w = (inr e, w') ->
  Forall isClaude pre -> calls w = (calls w0 ++ pre)%list ->
  RunFailure ctx ReadFile cfg (newCalls w0 w') e.
Proof.
  intros H Hpre Hc.
  apply analysisTail_failure in H
    as [cx [post [Hc' [Hcx [[ee [Herr [-> ->]]] | [Herr [e' [Hrun ->]]]]]]]];
    rewrite Hc, <- app_assoc in Hc'; rewrite (newCalls_app _ _ _ Hc').
  - now apply FailCodexPhase.
  - now apply FailFollowUp.
Qed.

Lemma runCodexOnly_failure (w w' : World CS XS) e :
  Mode cfg = ModeCodexOnly ->
  runCodexOnly claude codex ctx w = (inr e, w') ->
  RunFailure ctx ReadFile cfg (newCalls w w') e.
Proof.
  intros Hmode H.
  eapply (analysisTail_RunFailure
            "starting review phase (addressing codex findings)"
            "codex phases completed successfully" w _ w' []);
    [ unfold followUpPrefix; rewrite Hmode; exact H
    | constructor
    | simpl; now rewrite app_nil_r ].
Qed.

Lemma runReviewOnly_failure (w w' : World CS XS) e :
  Mode cfg = ModeReview ->
  runReviewOnly claude codex ctx w = (inr e, w') ->
  RunFailure ctx ReadFile cfg (newCalls w w') e.
Proof.
  intros Hmode.
  unfold runReviewOnly, bind at 1 2 3, logSetPhase at 1, logPrint at 1.
  match goal with |- context [wrapErr ?pf (runClaudeReview claude ctx ?p) ?w1] =>
    destruct (wrapped_review_run claude ctx pf p w1) as [R [rR [Hrun [Heq Hc]]]];
    rewrite Heq; clear Heq
  end.
  simpl in Hc. destruct rR as [[] | e1]; intros H.
  - eapply (analysisTail_RunFailure
              "starting second review phase (addressing codex findings)"
              "review phases completed successfully" w _ w' R);
      [ unfold followUpPrefix; rewrite Hmode; exact H
      | now apply ReviewRun_calls in Hrun
      | simpl; exact Hc ].
  - injection H as <- <-. rewrite (newCalls_app _ _ _ Hc).
    apply (FailFirstReview ctx ReadFile cfg [] R e1); [| exact Hrun].
    right. now split.
Qed.

Lemma runFull_failure (w w' : World CS XS) e :
  Mode cfg = ModeFull ->
  runFull claude codex ctx ReadFile cfg w = (inr e, w') ->
  RunFailure ctx ReadFile cfg (newCalls w w') e.
Proof.
  intros Hmode. unfold runFull. destruct (PlanFile cfg =? "") eqn:Hplan.
  { intros H. injection H as <- <-. rewrite newCalls_same by reflexivity.
    apply String.eqb_eq in Hplan. now apply FailNoPlanFile. }
  unfold bind at 1 2 3, logSetPhase at 1, logPrint at 1.
  match goal with |- context [wrapErr ?pf (runTaskPhase claude ctx ReadFile cfg) ?w1] =>
    destruct (wrapped_task_run claude ctx ReadFile cfg pf w1)
      as [T [rT [HrunT [Heq HcT]]]];
    rewrite Heq; clear Heq
  end.
  simpl in HcT. destruct rT as [[] | e1].
  2: { intros H. injection H as <- <-. rewrite (newCalls_app _ _ _ HcT).
       now apply FailTaskPhase. }
  unfold bind at 1 2 3, logSetPhase at 1, logPrint at 1.
  match goal with |- context [wrapErr ?pf (runClaudeReview claude ctx ?p) ?w3] =>
    destruct (wrapped_review_run claude ctx pf p w3) as [R [rR [HrunR [Heq HcR]]]];
    rewrite Heq; clear Heq
  end.
  simpl in HcR. destruct rR as [[] | e1]; intros H.
  - eapply (analysisTail_RunFailure
              "starting second review phase (addressing codex findings)"
              "all phases completed successfully" w _ w' (T ++ R));
      [ unfold followUpPrefix; rewrite Hmode; exact H
      | apply Forall_app; split;
          [now apply TaskRun_calls in HrunT | now apply ReviewRun_calls in HrunR]
      | etransitivity; [exact HcR | rewrite HcT; symmetry; apply app_assoc] ].
  - injection H as <- <-.
    rewrite (newCalls_app _ _ (T ++ R));
      [| etransitivity; [exact HcR | rewrite HcT; symmetry; apply app_assoc]].
    apply (FailFirstReview ctx ReadFile cfg T R e1); [| exact HrunR].
    left. now split.
Qed.

End RunErrors.

(** X9. The error of a run names the phase that failed.  Every error [Run]
    returns is ["plan file required for full mode"] (full mode, no plan file,
    no call made), ["unknown mode: "] followed by the mode (no call made), or
    the error of the phase that failed behind that phase's own prefix:
    ["task phase: "] before the error of the Task phase; ["first review: "]
    before the error of the first Review phase, which in full mode follows a
    Task phase that succeeded; ["codex phase: codex execution: "] before the
    error of the codex call, the last call of the run; and ["second review: "]
    (["review: "] in codex-only mode) before the error of the Review phase
    that follows the codex call. *)
Theorem run_error_names_phase {CS XS : Type} (claude : Executor CS)
    (codex : Executor XS) (ctx : Context) (ReadFile : FileSystem) (cfg : Config)
    (w : World CS XS) (e : string) :
  fst (Run claude codex ctx ReadFile cfg w) = inr e ->
  RunFailure ctx ReadFile cfg
             (newCalls w (snd (Run claude codex ctx ReadFile cfg w))) e.
Proof.
  destruct (Run claude codex ctx ReadFile cfg w) as [res w'] eqn:Hrun.
  cbn [fst snd]. intros ->. revert Hrun. unfold Run.
  destruct (String.eqb_spec (Mode cfg) ModeFull) as [Hf | Hf];
    [now apply runFull_failure |].
  destruct (String.eqb_spec (Mode cfg) ModeReview) as [Hr | Hr];
    [now apply runReviewOnly_failure |].
  destruct (String.eqb_spec (Mode cfg) ModeCodexOnly) as [Hc | Hc];
    [now apply runCodexOnly_failure |].
  intros H. injection H as <- <-.
  rewrite newCalls_same by reflexivity. now apply FailUnknownMode.
Qed.

Lemma run_error_names_phase_witness :
  RunFailure liveCtx testFS (testFull 3)
    (newCalls testWorld
       (snd (Run (mockExecutor [ok "working..." ""; ok "still working..." "";
                                ok "more work..." ""])
                 (mockExecutor []) liveCtx testFS (testFull 3) testWorld)))
    "task phase: max iterations (3) reached without completion".
Proof.
  apply (run_error_names_phase
           (mockExecutor [ok "working..." ""; ok "still working..." ""; ok "more work..." ""])
           (mockExecutor []) liveCtx testFS (testFull 3) testWorld).
  reflexivity.
Defined.

(** ** The causes of a failed phase *)

Section FailureCauses.

Variable ctx : Context.
Variable ReadFile : FileSystem.
Variable cfg : Config.

Lemma taskPrompt_error i lo e :
  taskPrompt ReadFile cfg i lo = inr e ->
  i = 1%Z /\ exists fe, ReadFile (PlanFile cfg) = inr fe /\ e = "read plan file: " ++ fe.
Proof.
  unfold taskPrompt, buildTaskPrompt. destruct (Z.eqb_spec i 1); [| discriminate].
  destruct (ReadFile (PlanFile cfg)) as [c | fe]; [discriminate |].
  intros H. injection H as <-. split; [assumption | now exists fe].
Qed.

(** One more continuing call in front of a failed run. *)
Lemma TaskFailure_cons n i c cs e :
  (1 <= i)%Z -> taskContinues c ->
  TaskFailure ctx ReadFile cfg n (i + 1) cs e ->
  TaskFailure ctx ReadFile cfg (S n) i (c :: cs) e.
Proof.
  intros Hi Hc [[-> [Hlen Hall]] | [[k [ce [Hk [-> Hall]]]] | [[fe [Hone _]]
               | [[l [c' [ee [-> [Hl [Hce ->]]]]]] | [l [c' [-> [Hl [Hf ->]]]]]]]]].
  - left. repeat split; [simpl; now rewrite Hlen | now constructor].
  - right. left. exists k, ce. repeat split; [assumption | now constructor].
  - lia.
  - right. right. right. left. exists (c :: l), c', ee.
    repeat split; [now constructor | assumption].
  - right. right. right. right. exists (c :: l), c'.
    repeat split; [now constructor | apply Hf | apply Hf].
Qed.

Lemma TaskRun_failure n i lo cs e :
  (1 <= i)%Z ->
  TaskRun ctx ReadFile cfg n i lo cs (inr e) ->
  TaskFailure ctx ReadFile cfg n i cs e.
Proof.
  intros Hi H. remember (inr e) as res eqn:Hres. revert Hi e Hres.
  induction H as [ i lo | n i lo k e0 Hk | n i lo e0 Hp | n i lo p r e0 Hp He
                 | n i lo p r Hp He Hs | n i lo p r Hp He Hs
                 | n i lo p r cs res Hp He Hs Hrun IH ];
    intros Hi e Hres; try discriminate; try injection Hres as <-.
  - left. now repeat split.
  - right. left. exists k, e0. now repeat split.
  - right. right. left.
    destruct (taskPrompt_error _ _ _ Hp) as [-> [fe [Hfe ->]]]. now exists fe.
  - right. right. right. left. exists [], (mkCall Claude p r), e0. now repeat split.
  - right. right. right. right. exists [], (mkCall Claude p r). now repeat split.
  - apply TaskFailure_cons; [exact Hi | now split |].
    apply IH; [lia | exact Hres].
Qed.

Lemma ReviewFailure_cons n c cs e :
  reviewContinues c ->
  ReviewFailure ctx n cs e -> ReviewFailure ctx (S n) (c :: cs) e.
Proof.
  intros Hc [[-> [Hlen Hall]] | [[k [ce [Hk [-> Hall]]]]
               | [[l [c' [ee [-> [Hl [Hce ->]]]]]] | [l [c' [-> [Hl [Hf ->]]]]]]]].
  - left. repeat split; [simpl; now rewrite Hlen | now constructor].
  - right. left. exists k, ce. repeat split; [assumption | now constructor].
  - right. right. left. exists (c :: l), c', ee.
    repeat split; [now constructor | assumption].
  - right. right. right. exists (c :: l), c'.
    repeat split; [now constructor | apply Hf | apply Hf].
Qed.

Lemma ReviewRun_failure n p cs e :
  ReviewRun ctx n p cs (inr e) -> ReviewFailure ctx n cs e.
Proof.
  intros H. remember (inr e) as res eqn:Hres. revert e Hres.
  induction H as [ p | n p k e0 Hk | n p r e0 He | n p r He Hs | n p r He Hs
                 | n p r cs res He Hf Hd Hrun IH ];
    intros e Hres; try discriminate; try injection Hres as <-.
  - left. now repeat split.
  - right. left. exists k, e0. now repeat split.
  - right. right. left. exists [], (mkCall Claude p r), e0. now repeat split.
  - right. right. right. exists [], (mkCall Claude p r). now repeat split.
  - apply ReviewFailure_cons; [now repeat split | now apply IH].
Qed.

End FailureCauses.

(** X10. A phase fails for one of a fixed set of causes.  When the Task
    phase returns an error, either the cap was reached after that many
    continuing results, or a poll found the context cancelled, or the plan file
    could not be read (no invocation made), or the last invocation returned an
    error, or its result carried FAILED; in each case all earlier results
    carried no error and no terminal signal.  The Review phase fails for the
    same causes, the plan file apart. *)
Theorem phase_failure_causes {CS XS : Type} (claude : Executor CS)
    (ctx : Context) (ReadFile : FileSystem) (cfg : Config) (p : string)
    (w : World CS XS) :
  (let run := runTaskPhase claude ctx ReadFile cfg w in
   forall e, fst run = inr e ->
     TaskFailure ctx ReadFile cfg (Z.to_nat (MaxIterations cfg)) 1
                 (newCalls w (snd run)) e) /\
  (let run := runClaudeReview claude ctx p w in
   forall e, fst run = inr e ->
     ReviewFailure ctx (Z.to_nat maxReviewIterations) (newCalls w (snd run)) e).
Proof.
  split; intros run e He.
  - destruct (runTaskPhase_TaskRun claude ctx ReadFile cfg w) as [_ Hrun].
    fold run in Hrun. rewrite He in Hrun.
    now apply (TaskRun_failure ctx ReadFile cfg _ 1 "").
  - destruct (runClaudeReview_ReviewRun claude ctx p w) as [_ Hrun].
    fold run in Hrun. rewrite He in Hrun.
    now apply (ReviewRun_failure ctx _ p).
Qed.

Lemma phase_failure_causes_witness :
  let run := runTaskPhase (mockExecutor [ok "working..." ""; ok "error occurred" SignalFailed])
                          liveCtx testFS (testFull 10) testWorld in
  TaskFailure liveCtx testFS (testFull 10) (Z.to_nat 10) 1
              (newCalls testWorld (snd run))
              "task execution failed (FAILED signal received)".
Proof.
  intros run.
  apply (proj1 (phase_failure_causes
                  (mockExecutor [ok "working..." ""; ok "error occurred" SignalFailed])
                  liveCtx testFS (testFull 10) "" testWorld)).
  reflexivity.
Defined.

(** X11. A cap of zero or less leaves the Task phase no iteration: in full
    mode with a plan file configured, the run fails with the max-iterations
    error at once, without polling the context, reading the plan file or
    invoking an executor. *)
Theorem full_mode_without_iterations {CS XS : Type} (claude : Executor CS)
    (codex : Executor XS) (ctx : Context) (ReadFile : FileSystem) (cfg : Config)
    (w : World CS XS) :
  Mode cfg = ModeFull -> PlanFile cfg <> "" -> (MaxIterations cfg <= 0)%Z ->
  let run := Run claude codex ctx ReadFile cfg w in
  fst run = inr ("task phase: max iterations (" ++ fmt_d (MaxIterations cfg)
                   ++ ") reached without completion") /\
  calls (snd run) = calls w /\ polls (snd run) = polls w /\
  claudeSt (snd run) = claudeSt w /\ codexSt (snd run) = codexSt w.
Proof.
  intros Hm Hp HN run. subst run. unfold Run, runFull. rewrite Hm.
  apply String.eqb_neq in Hp. rewrite Hp. simpl.
  unfold runTaskPhase. replace (Z.to_nat (MaxIterations cfg)) with 0 by lia.
  now repeat split.
Qed.

Lemma full_mode_without_iterations_witness :
  let run := Run (mockExecutor [ok "task done" SignalCompleted]) (mockExecutor [])
                 liveCtx testFS (testFull 0) testWorld in
  fst run = inr ("task phase: max iterations (" ++ fmt_d 0
                   ++ ") reached without completion") /\
  calls (snd run) = calls testWorld /\ polls (snd run) = polls testWorld /\
  claudeSt (snd run) = claudeSt testWorld /\ codexSt (snd run) = codexSt testWorld.
Proof.
  intros run.
  apply (full_mode_without_iterations (mockExecutor [ok "task done" SignalCompleted])
           (mockExecutor []) liveCtx testFS (testFull 0) testWorld).
  - reflexivity.
  - discriminate.
  - vm_compute. discriminate.
Defined.

(** ** Prompts and signals *)

(** X12. The continue prompt stays small: its length is 161 bytes of fixed
    text plus the length of the previous output, capped at 500, so it never
    exceeds 661 bytes however long the previous output is. *)
Theorem buildContinuePrompt_length (previousOutput : string) :
  String.length (buildContinuePrompt previousOutput)
  = 161 + Nat.min 500 (String.length previousOutput) /\
  String.length (buildContinuePrompt previousOutput) <= 661.
Proof.
  assert (Hlen : String.length (buildContinuePrompt previousOutput)
                 = 161 + Nat.min 500 (String.length previousOutput)).
  { unfold buildContinuePrompt. rewrite !length_app.
    change (String.length continueHead) with 72.
    change (String.length continueTail) with 89.
    destruct (Nat.leb_spec (String.length previousOutput) 500) as [H | H].
    - rewrite (continueWindow_short _ H). lia.
    - destruct (continueWindow_long _ H) as [-> _]. lia. }
  split; [exact Hlen | lia].
Qed.

Lemma secondReviewHead_cut :
  exists h, secondReviewHead = h ++ nl /\ Contains h SignalCompleted = false.
Proof.
  eexists (take (String.length secondReviewHead - 1) secondReviewHead).
  now vm_compute.
Qed.

Lemma secondReviewTail_cut :
  exists t, secondReviewTail = nl ++ t /\ Contains t SignalCompleted = false.
Proof. eexists (drop 1 secondReviewTail). now vm_compute. Qed.

(** X13. The review prompts speak the review loop's vocabulary: the first
    review prompt and every second review prompt tell the agent to output
    REVIEW_DONE or FAILED, and COMPLETED occurs in them only where the
    findings handed to the second review prompt contain it. *)
Theorem review_prompts_vocabulary (codexFindings : string) :
  Contains buildFirstReviewPrompt SignalReviewDone = true /\
  Contains buildFirstReviewPrompt SignalFailed = true /\
  Contains buildFirstReviewPrompt SignalCompleted = false /\
  Contains (buildSecondReviewPrompt codexFindings) SignalReviewDone = true /\
  Contains (buildSecondReviewPrompt codexFindings) SignalFailed = true /\
  Contains (buildSecondReviewPrompt codexFindings) SignalCompleted
  = Contains codexFindings SignalCompleted.
Proof.
  split; [now vm_compute |]. split; [now vm_compute |]. split; [now vm_compute |].
  split; [| split].
  - apply Contains_spec. unfold buildSecondReviewPrompt.
    do 2 apply Occurs_app_r. apply Contains_spec. now vm_compute.
  - apply Contains_spec. unfold buildSecondReviewPrompt.
    do 2 apply Occurs_app_r. apply Contains_spec. now vm_compute.
  - destruct secondReviewHead_cut as [h [Hh Hh']].
    destruct secondReviewTail_cut as [t [Ht Ht']].
    unfold buildSecondReviewPrompt. rewrite Hh, Ht. unfold nl.
    rewrite append_assoc. cbn [append].
    rewrite !Contains_split_byte by reflexivity.
    now rewrite Hh', Ht', orb_false_r.
Qed.

(** ** The line reader: what it delivers *)

Section DeliveredLines.

Context {H : Type}.
Variable handler : H -> string -> H.

Lemma cutAt_spec (s : string) :
  match cutAt LF s with
  | Some (line, rest) =>
      exists seg, line = seg ++ String LF "" /\ HasByte LF seg = false /\
                  s = line ++ rest /\
                  String.length rest < String.length s /\
                  countByte LF s = S (countByte LF rest)
  | None => HasByte LF s = false /\ countByte LF s = 0
  end.
Proof.
  induction s as [|c s IH]; cbn [cutAt HasByte countByte String.length];
    [now split |].
  destruct (Ascii.eqb c LF) eqn:Hc.
  - apply Ascii.eqb_eq in Hc. subst c. exists "". repeat split. lia.
  - rewrite Ascii.eqb_sym, Hc. destruct (cutAt LF s) as [[line rest]|].
    + destruct IH as [seg [-> [Hseg [Hs [Hlen Hcount]]]]].
      exists (String c seg). cbn [append HasByte].
      rewrite Ascii.eqb_sym, Hc. repeat split; [exact Hseg | | lia | exact Hcount].
      cbn [append] in Hs |- *. now rewrite <- Hs.
    + destruct IH as [Hs Hcount]. now split.
Qed.

(** Under a live context the loop hands over the delivered lines in order,
    each once, and then returns the way the stream ended. *)
Lemma readLinesLoop_delivered (ctx : Context) (fuel : nat) :
  ctxLive ctx ->
  forall k s e h,
    String.length s < fuel ->
    readLinesLoop ctx handler fuel k (mkStream s e) h
    = Some (endError e, fold_left handler (deliveredFuel fuel s) h).
Proof.
  intros Hctx. induction fuel as [|fuel IH]; intros k s e h Hlen; [lia |].
  cbn [readLinesLoop deliveredFuel]. rewrite Hctx.
  unfold ReadString. cbn [pending ending].
  pose proof (cutAt_spec s) as Hcut.
  destruct (cutAt LF s) as [[line rest]|].
  - destruct Hcut as [seg [-> [Hseg [Hs [Hrest Hcount]]]]].
    rewrite length_app. cbn [String.length].
    replace (0 <? String.length seg + 1)%nat with true
      by (symmetry; apply Nat.ltb_lt; lia).
    rewrite IH by lia. reflexivity.
  - destruct (0 <? String.length s)%nat; now destruct e.
Qed.

End DeliveredLines.

Section TrimRightFacts.

Variable cutset : string.

Lemma TrimRight_snoc_cut (s : string) (c : ascii) :
  HasByte c cutset = true ->
  TrimRight (s ++ String c "") cutset = TrimRight s cutset.
Proof.
  intros Hc. induction s as [|x s IH]; cbn [append TrimRight].
  - now rewrite Hc.
  - now rewrite IH.
Qed.

Lemma TrimRight_last (s : string) (c : ascii) :
  lastByte (TrimRight s cutset) = Some c -> HasByte c cutset = false.
Proof.
  induction s as [|x s IH]; cbn [TrimRight]; [discriminate |].
  destruct (TrimRight s cutset) as [|y t].
  - destruct (HasByte x cutset) eqn:Hx; [discriminate |].
    intros H. now injection H as <-.
  - exact IH.
Qed.

Lemma TrimRight_prefix (s : string) :
  exists t, s = TrimRight s cutset ++ t.
Proof.
  induction s as [|x s [t IH]]; cbn [TrimRight]; [now exists "" |].
  destruct (TrimRight s cutset) as [|y u].
  - destruct (HasByte x cutset).
    + now exists (String x s).
    + exists t. simpl in *. now rewrite <- IH.
  - exists t. simpl in *. now rewrite <- IH.
Qed.

End TrimRightFacts.

Lemma HasByte_app (c : ascii) (a b : string) :
  HasByte c (a ++ b) = HasByte c a || HasByte c b.
Proof.
  induction a as [|x a IH]; cbn [append HasByte]; [reflexivity |].
  now rewrite IH, orb_assoc.
Qed.

Lemma endsWithCR_lastByte (s : string) :
  endsWithCR s = true <-> lastByte s = Some CR.
Proof.
  induction s as [|c s IH]; cbn [endsWithCR lastByte]; [now split |].
  destruct s as [|d s]; [| exact IH].
  rewrite Ascii.eqb_eq. split; [now intros -> | now intros [= ->]].
Qed.

Lemma TrimRight_trimmedLine (s : string) :
  HasByte LF s = false -> trimmedLine (TrimRight s crlf).
Proof.
  intros Hs. split.
  - destruct (TrimRight_prefix crlf s) as [t Ht].
    rewrite Ht, HasByte_app in Hs. now apply orb_false_iff in Hs.
  - destruct (endsWithCR (TrimRight s crlf)) eqn:Hcr; [| reflexivity].
    apply endsWithCR_lastByte, TrimRight_last in Hcr. discriminate Hcr.
Qed.

Lemma readLinesLoop_trimmed (ctx : Context) (fuel : nat) :
  forall k r acc err ls,
    readLinesLoop ctx collect fuel k r acc = Some (err, ls) ->
    Forall trimmedLine acc -> Forall trimmedLine ls.
Proof.
  induction fuel as [|fuel IH]; intros k r acc err ls Hrun Hacc; [discriminate |].
  cbn [readLinesLoop] in Hrun. destruct (ctx k).
  { now injection Hrun as _ <-. }
  unfold ReadString in Hrun. pose proof (cutAt_spec (pending r)) as Hcut.
  destruct (cutAt LF (pending r)) as [[line rest]|].
  - destruct Hcut as [seg [-> [Hseg _]]].
    apply IH in Hrun; [exact Hrun |].
    rewrite length_app. cbn [String.length].
    replace (0 <? String.length seg + 1)%nat with true
      by (symmetry; apply Nat.ltb_lt; lia).
    apply Forall_app. split; [exact Hacc |]. constructor; [| constructor].
    rewrite TrimRight_snoc_cut by reflexivity.
    now apply TrimRight_trimmedLine.
  - destruct Hcut as [Hs _].
    assert (Hacc' : Forall trimmedLine
                      (if (0 <? String.length (pending r))%nat
                       then collect acc (TrimRight (pending r) crlf) else acc)).
    { destruct (0 <? String.length (pending r))%nat; [| exact Hacc].
      apply Forall_app. split; [exact Hacc |]. constructor; [| constructor].
      now apply TrimRight_trimmedLine. }
    destruct (ending r); now injection Hrun as _ <-.
Qed.

Lemma fold_left_collect (l acc : list string) :
  fold_left collect l acc = (acc ++ l)%list.
Proof.
  revert acc; induction l as [|x l IH]; intros acc; simpl.
  - now rewrite app_nil_r.
  - rewrite IH. unfold collect. now rewrite <- app_assoc.
Qed.

Lemma unterminated_after_line (seg rest : string) :
  unterminated ((seg ++ String LF "") ++ rest) = unterminated rest.
Proof.
  unfold unterminated. destruct rest as [|c rest].
  - rewrite append_nil_r, lastByte_app by discriminate. reflexivity.
  - now rewrite lastByte_app by discriminate.
Qed.

Lemma unterminated_no_LF (s : string) :
  HasByte LF s = false ->
  unterminated s = (0 <? String.length s)%nat.
Proof.
  unfold unterminated. induction s as [|c s IH]; [reflexivity |].
  cbn [HasByte]. intros Hs. apply orb_false_iff in Hs as [Hc Hs].
  cbn [lastByte]. destruct s as [|d s].
  - rewrite Ascii.eqb_sym, Hc. reflexivity.
  - rewrite (IH Hs). reflexivity.
Qed.

Lemma deliveredFuel_length (fuel : nat) :
  forall s, String.length s < fuel ->
    List.length (deliveredFuel fuel s)
    = countByte LF s + (if unterminated s then 1 else 0).
Proof.
  induction fuel as [|fuel IH]; intros s Hlen; [lia |].
  cbn [deliveredFuel]. pose proof (cutAt_spec s) as Hcut.
  destruct (cutAt LF s) as [[line rest]|].
  - destruct Hcut as [seg [-> [_ [Hs [Hrest Hcount]]]]].
    cbn [List.length]. rewrite IH by lia.
    rewrite Hcount.
    replace (unterminated s) with (unterminated rest)
      by (rewrite Hs; symmetry; apply unterminated_after_line).
    lia.
  - destruct Hcut as [Hs Hcount]. rewrite Hcount, (unterminated_no_LF s Hs).
    now destruct (0 <? String.length s)%nat.
Qed.

Lemma TrimRight_cons (c : ascii) (s cutset : string) :
  TrimRight (String c s) cutset
  = match TrimRight s cutset with
    | EmptyString => if HasByte c cutset then EmptyString else String c EmptyString
    | t => String c t
    end.
Proof. reflexivity. Qed.

Lemma TrimRight_crlf_CR (s : string) :
  HasByte LF s = false -> TrimRight s crlf = trimCR s.
Proof.
  unfold trimCR. induction s as [|c s IH]; [reflexivity |].
  cbn [HasByte]. intros Hs. apply orb_false_iff in Hs as [Hc Hs].
  rewrite !TrimRight_cons, (IH Hs).
  destruct (TrimRight s (String CR "")); [| reflexivity].
  rewrite HasByte_crlf. cbn [HasByte]. rewrite Ascii.eqb_sym in Hc.
  now rewrite Hc, !orb_false_r.
Qed.

Lemma trimCR_stripOneCR (s : string) :
  trimCR (stripOneCR s) = trimCR s.
Proof.
  unfold trimCR. induction s as [|c s IH]; [reflexivity |].
  destruct s as [|d s].
  - cbn [stripOneCR]. destruct (Ascii.eqb c CR) eqn:Hc; [| reflexivity].
    cbn [TrimRight HasByte]. now rewrite Hc.
  - change (stripOneCR (String c (String d s)))
      with (String c (stripOneCR (String d s))).
    rewrite (TrimRight_cons c (stripOneCR (String d s))).
    rewrite (TrimRight_cons c (String d s)).
    now rewrite IH.
Qed.

(** What the loop hands over is each line of the stream without its trailing
    carriage returns. *)
Lemma deliveredFuel_specLines (fuel : nat) :
  forall s, deliveredFuel fuel s = map trimCR (specLinesFuel fuel s).
Proof.
  induction fuel as [|fuel IH]; intros s; [reflexivity |].
  cbn [deliveredFuel specLinesFuel].
  pose proof (cutAt_breakLF s) as Hcut.
  destruct (breakLF s) as [[seg rest]|].
  - destruct Hcut as [-> [Hseg _]]. cbn [map]. rewrite IH. f_equal.
    rewrite TrimRight_snoc_cut by reflexivity.
    rewrite TrimRight_crlf_CR by exact Hseg.
    symmetry. apply trimCR_stripOneCR.
  - destruct Hcut as [-> Hs].
    destruct (0 <? String.length s)%nat; [| reflexivity].
    cbn [map]. now rewrite TrimRight_crlf_CR.
Qed.

(** The loop under a context whose first cancelled poll is the [p]-th from
    the current one. *)
Lemma readLinesLoop_cancelled_at {H : Type} (ctx : Context)
    (handler : H -> string -> H) (e : string) (fuel : nat) :
  forall p k s en h,
    (forall j, k <= j < k + p -> ctx j = None) ->
    ctx (k + p) = Some e ->
    String.length s < fuel ->
    readLinesLoop ctx handler fuel k (mkStream s en) h
    = Some (if (p <=? countByte LF s)%nat then Some e else endError en,
            fold_left handler (firstn p (deliveredFuel fuel s)) h).
Proof.
  induction fuel as [|fuel IH]; intros p k s en h Hlive Hdone Hlen; [lia |].
  cbn [readLinesLoop deliveredFuel]. destruct p as [|p].
  - rewrite Nat.add_0_r in Hdone. now rewrite Hdone.
  - rewrite (Hlive k) by lia.
    unfold ReadString. cbn [pending ending].
    pose proof (cutAt_spec s) as Hcut.
    destruct (cutAt LF s) as [[line rest]|].
    + destruct Hcut as [seg [-> [Hseg [Hs [Hrest Hcount]]]]].
      rewrite length_app. cbn [String.length].
      replace (0 <? String.length seg + 1)%nat with true
        by (symmetry; apply Nat.ltb_lt; lia).
      rewrite (IH p (S k) rest en); [| intros j Hj; apply Hlive; lia
                                     | now replace (S k + p) with (k + S p) by lia
                                     | lia].
      rewrite Hcount. reflexivity.
    + destruct Hcut as [_ Hcount]. rewrite Hcount. cbn [Nat.leb].
      destruct (0 <? String.length s)%nat; cbn [firstn]; rewrite ?firstn_nil;
        now destruct en.
Qed.

(** ** What [readLines] hands to its handler *)

(** X14. Whatever the context does and however the stream ends, [readLines]
    returns, and no line it has handed over holds a line feed or ends in a
    carriage return. *)
Theorem readLines_hands_over_trimmed (ctx : Context) (r : Stream) :
  exists err ls,
    readLines ctx collect r [] = Some (err, ls) /\ Forall trimmedLine ls.
Proof.
  destruct (readLines_returns ctx collect r []) as [[err ls] Hrun].
  exists err, ls. split; [exact Hrun |].
  eapply readLinesLoop_trimmed; [exact Hrun | constructor].
Qed.

(** X15. Under a context that is not cancelled, [readLines] hands over every
    line of the stream, in order and each once, without its terminator and
    without any carriage return that ends it, and returns the error that
    ended the stream, [nil] for [io.EOF]. *)
Theorem readLines_strips_trailing_CRs {H : Type} (ctx : Context)
    (handler : H -> string -> H) (s : string) (e : ReadError) (h : H) :
  ctxLive ctx ->
  readLines ctx handler (mkStream s e) h
  = Some (endError e, fold_left handler (map trimCR (specLines s)) h).
Proof.
  intros Hctx. unfold readLines, specLines. cbn [pending].
  rewrite (readLinesLoop_delivered handler ctx _ Hctx 0 s e h) by lia.
  now rewrite deliveredFuel_specLines.
Qed.

Lemma readLines_strips_trailing_CRs_witness :
  readLines liveCtx collect
    (mkStream ("a" ++ String CR crlf ++ "b" ++ String CR "") (io_Err "reset")) []
  = Some (endError (io_Err "reset"),
          fold_left collect
            (map trimCR (specLines ("a" ++ String CR crlf ++ "b" ++ String CR "")))
            []).
Proof.
  apply (readLines_strips_trailing_CRs liveCtx collect).
  intros k. reflexivity.
Defined.

(** X16. Under a context that is not cancelled, the handler is called once
    for every line feed of the stream, and once more when bytes follow the
    last line feed. *)
Theorem readLines_line_count (ctx : Context) (s : string) (e : ReadError) :
  ctxLive ctx ->
  exists ls,
    readLines ctx collect (mkStream s e) [] = Some (endError e, ls) /\
    List.length ls = countByte LF s + (if unterminated s then 1 else 0).
Proof.
  intros Hctx. unfold readLines. cbn [pending].
  rewrite (readLinesLoop_delivered collect ctx _ Hctx 0 s e []) by lia.
  eexists. split; [reflexivity |].
  rewrite fold_left_collect. cbn [app].
  apply deliveredFuel_length. lia.
Qed.

Lemma readLines_line_count_witness :
  exists ls,
    readLines liveCtx collect (mkStream ("a" ++ crlf ++ crlf ++ "b") io_EOF) []
    = Some (endError io_EOF, ls) /\
    List.length ls
    = countByte LF ("a" ++ crlf ++ crlf ++ "b")
      + (if unterminated ("a" ++ crlf ++ crlf ++ "b") then 1 else 0).
Proof.
  apply (readLines_line_count liveCtx).
  intros k. reflexivity.
Defined.

(** X17. Cancellation is noticed only between reads.  When the [p]-th poll
    of the context is the first cancelled one, [readLines] hands over the
    first [p] lines and returns the context's error if the stream has at
    least [p] line feeds; with fewer the stream ends first, every line is
    handed over and the cancellation goes unnoticed. *)
Theorem readLines_cancelled_at {H : Type} (ctx : Context)
    (handler : H -> string -> H) (p : nat) (e s : string) (en : ReadError)
    (h : H) :
  (forall j, j < p -> ctx j = None) ->
  ctx p = Some e ->
  readLines ctx handler (mkStream s en) h
  = Some (if (p <=? countByte LF s)%nat then Some e else endError en,
          fold_left handler (firstn p (deliveredLines s)) h).
Proof.
  intros Hlive Hdone. unfold readLines, deliveredLines. cbn [pending].
  apply readLinesLoop_cancelled_at; [intros j Hj; apply Hlive; lia | exact Hdone | lia].
Qed.

Lemma readLines_cancelled_at_witness :
  readLines (canceledFrom 1) collect
    (mkStream ("a" ++ crlf ++ "b" ++ crlf ++ "c") io_EOF) []
  = Some (if (1 <=? countByte LF ("a" ++ crlf ++ "b" ++ crlf ++ "c"))%nat
          then Some "context canceled" else endError io_EOF,
          fold_left collect
            (firstn 1 (deliveredLines ("a" ++ crlf ++ "b" ++ crlf ++ "c"))) []).
Proof.
  apply (readLines_cancelled_at (canceledFrom 1) collect 1).
  - intros j Hj. assert (j = 0) as -> by lia. reflexivity.
  - reflexivity.
Defined.

(** ** The window of the completion check *)

Lemma drop_length_app (a b : string) :
  drop (String.length a) (a ++ b) = b.
Proof. induction a as [|c a IH]; [reflexivity | exact IH]. Qed.

(** X18. Only the last 256 bytes of a progress file decide how the log is
    opened: whatever precedes them, a completion marker included, the file is
    truncated and gets the fresh header exactly when these bytes hold the
    marker, and otherwise keeps every byte and gets the restart separator. *)
Theorem NewLogger_window (header restartSeparator pre t : string) :
  String.length t = 256 ->
  NewLogger header restartSeparator (Some (pre ++ t))
  = if Contains t completionMarker
    then (header, false)
    else ((pre ++ t) ++ restartSeparator, true).
Proof.
  intros Hlen. unfold NewLogger, isProgressCompleted.
  rewrite length_app, Hlen.
  replace (String.length pre + 256 =? 0)%nat with false
    by (symmetry; apply Nat.eqb_neq; lia).
  replace (String.length pre + 256 - 256) with (String.length pre) by lia.
  rewrite drop_length_app.
  now destruct (Contains t completionMarker).
Qed.

Lemma NewLogger_window_witness :
  NewLogger "# header" "--- restart ---"
    (Some (("Completed: 2026-02-18" ++ String LF "") ++ replicate 256 "x"))
  = if Contains (replicate 256 "x") completionMarker
    then ("# header", false)
    else ((("Completed: 2026-02-18" ++ String LF "") ++ replicate 256 "x")
          ++ "--- restart ---", true).
Proof.
  apply (NewLogger_window "# header" "--- restart ---").
  reflexivity.
Defined.

(** ** The wrapper script *)

Section WrapperFacts.

Import CodexAsClaude.

Lemma extractPrompt_skip (post : list string) :
  ~ In "-p" post -> forall p, extractPrompt p post = p.
Proof.
  induction post as [|a post IH]; intros Hno p; [reflexivity |].
  cbn [extractPrompt]. destruct (String.eqb_spec a "-p") as [-> | _].
  - elim Hno. now left.
  - apply IH. intros Hin. apply Hno. now right.
Qed.

Lemma extractPrompt_after_p (pre post : list string) (p : string) :
  ~ In "-p" pre -> ~ In "-p" post ->
  forall p0, extractPrompt p0 (pre ++ "-p" :: p :: post)%list = p.
Proof.
  intros Hpre Hpost. induction pre as [|a pre IH]; intros p0.
  - cbn [app extractPrompt]. rewrite String.eqb_refl.
    now apply extractPrompt_skip.
  - cbn [app extractPrompt]. destruct (String.eqb_spec a "-p") as [-> | _].
    + elim Hpre. now left.
    + apply IH. intros Hin. apply Hpre. now right.
Qed.

Lemma extractPrompt_origin (n : nat) :
  forall args p0,
    List.length args <= n ->
    extractPrompt p0 args = p0 \/ extractPrompt p0 args = "" \/
    exists pre post, args = (pre ++ "-p" :: extractPrompt p0 args :: post)%list.
Proof.
  induction n as [|n IH]; intros args p0 Hlen.
  - destruct args; [now left | simpl in Hlen; lia].
  - destruct args as [|a rest]; [now left |]. cbn [List.length] in Hlen.
    cbn [extractPrompt]. destruct (String.eqb_spec a "-p") as [-> | Ha].
    + destruct rest as [|v rest]; [now right; left |].
      cbn [List.length] in Hlen.
      destruct (IH rest v ltac:(lia)) as [Hv | [He | [pre [post Heq]]]].
      * right; right. exists [], rest. now rewrite Hv.
      * now right; left.
      * right; right. exists ("-p" :: v :: pre)%list, post.
        cbn [app]. now rewrite <- Heq.
    + destruct (IH rest p0 ltac:(lia)) as [Hv | [He | [pre [post Heq]]]].
      * now left.
      * now right; left.
      * right; right. exists (a :: pre)%list, post.
        cbn [app]. now rewrite <- Heq.
Qed.

(** X19. Called the way the executor calls it, with the prompt as the word
    after [-p] and no other [-p] among the words around it, the script
    starts [codex] when [jq] is there and the prompt is not empty, with the
    prompt as the last argument, unchanged, whatever the other words are. *)
Theorem codex_receives_prompt (env : Env) (pre post : list string)
    (p : string) :
  ~ In "-p" pre -> ~ In "-p" post -> p <> "" ->
  run true env (pre ++ "-p" :: p :: post)%list
  = StartCodex (codex_args env p) (verbose env)
  /\ last (codex_args env p) "" = p.
Proof.
  intros Hpre Hpost Hp. split.
  - unfold run. cbn [negb].
    rewrite (extractPrompt_after_p pre post p Hpre Hpost).
    now destruct (String.eqb_spec p "").
  - unfold codex_args. rewrite !app_assoc. apply last_last.
Qed.

Lemma codex_receives_prompt_witness :
  run true (mkEnv "" "" "")
      (["--dangerously-skip-permissions"; "--output-format"; "stream-json"]
       ++ "-p" :: "review the plan" :: [])%list
  = StartCodex (codex_args (mkEnv "" "" "") "review the plan")
               (verbose (mkEnv "" "" ""))
  /\ last (codex_args (mkEnv "" "" "") "review the plan") "" = "review the plan".
Proof.
  apply (codex_receives_prompt (mkEnv "" "" "")
           ["--dangerously-skip-permissions"; "--output-format"; "stream-json"]
           [] "review the plan").
  - intros [H | [H | [H | []]]]; discriminate H.
  - intros [].
  - discriminate.
Defined.

(** X20. The script starts [codex] only when [jq] is there, only with a
    prompt that is not empty and that stands right after a [-p] among the
    script's own arguments, and only with a verbosity of 0 or 1; in every
    other case it exits with status 1. *)
Theorem codex_started_only_with_prompt (jq : bool) (env : Env)
    (args cargs : list string) (v : string) :
  run jq env args = StartCodex cargs v ->
  jq = true /\ (v = "0" \/ v = "1") /\
  exists p pre post,
    p <> "" /\ args = (pre ++ "-p" :: p :: post)%list /\
    cargs = codex_args env p.
Proof.
  unfold run. destruct jq; cbn [negb]; [| discriminate].
  destruct (String.eqb_spec (extractPrompt "" args) "") as [| Hp];
    [discriminate |].
  intros [= <- <-]. split; [reflexivity |]. split.
  - unfold verbose.
    destruct (String.eqb_spec (orDefault (CODEX_VERBOSE env) "0") "0") as [-> | _];
      [now left |].
    destruct (String.eqb_spec (orDefault (CODEX_VERBOSE env) "0") "1") as [-> | _];
      [now right | now left].
  - destruct (extractPrompt_origin (List.length args) args "" (Nat.le_refl _))
      as [He | [He | [pre [post Heq]]]]; try contradiction.
    exists (extractPrompt "" args), pre, post. now repeat split.
Qed.

Lemma codex_started_only_with_prompt_witness :
  true = true /\ ("1" = "0" \/ "1" = "1") /\
  exists p pre post,
    p <> "" /\
    ["--verbose"; "-p"; "fix the tests"] = (pre ++ "-p" :: p :: post)%list /\
    codex_args (mkEnv "o3" "read-only" "1") "fix the tests"
    = codex_args (mkEnv "o3" "read-only" "1") p.
Proof.
  apply (codex_started_only_with_prompt true (mkEnv "o3" "read-only" "1")
           ["--verbose"; "-p"; "fix the tests"]
           (codex_args (mkEnv "o3" "read-only" "1") "fix the tests") "1").
  reflexivity.
Defined.

End WrapperFacts.
